(** * Ocypus Iota L36 LCD driver: a shallow embedding of
      [ocypus-L36-control.py] and the properties of its report codec,
      device selection, connection handling and display loop. *)

From Stdlib Require Import ZArith QArith Qround Lqa Lia Bool.
From Stdlib Require Import String Ascii.
From Stdlib Require Import Sorted.
From Corelib Require PrimFloat SpecFloat FloatOps.
From stdpp Require Import base list strings.

Local Open Scope Z_scope.

(** ** Constants (lines 33-38 of the source) *)

Definition REPORT_ID : Z := 0x07.
Definition REPORT_LENGTH : nat := 64.
Definition KEEPALIVE_INTERVAL : Q := 2%Q.
Definition DEFAULT_REFRESH_RATE : Q := 1%Q.

(** ** The report codec *)

(** A report is a [bytearray]: a list of byte values. *)
Abbreviation Report := (list Z).

(** [max(0, min(999, v))] *)
Definition clamp999 (v : Z) : Z := Z.max 0 (Z.min 999 v).

(** [bytearray([REPORT_ID] + [0] * (REPORT_LENGTH - 1))] *)
Definition empty_report : Report :=
  REPORT_ID :: replicate (REPORT_LENGTH - 1) 0.

(** [OcypusController._build_display_report].  Python's [//] and [%] are
    floored; the operands are non-negative after the clamp, where they
    coincide with [Z.div] and [Z.modulo]. *)
Definition _build_display_report (value_int : Z) : Report :=
  let value_int := clamp999 value_int in
  let h := value_int / 100 in
  let t := (value_int mod 100) / 10 in
  let o := value_int mod 10 in
  let report := empty_report in
  let report := <[1%nat := 0xFF]> report in
  let report := <[2%nat := 0xFF]> report in
  let report := <[3%nat := h]> report in
  let report := <[4%nat := t]> report in
  let report := <[5%nat := o]> report in
  report.

(** ** Enumerated HID interfaces *)

(** One dictionary of [hid.enumerate]; the fields are the keys the driver
    reads with [d.get(...)], [None] when the key is absent (or [None]). *)
Record DeviceInfo := {
  info_interface_number : option Z;
  info_path : option string;
  usage_page : option Z;
  usage : option Z;
}.

Abbreviation Key := (Z * string)%type.

(** The addressing key [(interface_number, path)] of an entry, when both
    parts are present. *)
Definition device_key (d : DeviceInfo) : option Key :=
  match info_interface_number d, info_path d with
  | Some i, Some p => Some (i, p)
  | _, _ => None
  end.

(** [uniq[key] = d] on a Python [dict], which keeps insertion order: an
    existing key keeps its position and takes the new value, a new key goes
    to the end. *)
Fixpoint dict_set {V} (k : Key) (v : V) (m : list (Key * V)) : list (Key * V) :=
  match m with
  | [] => [(k, v)]
  | (k', v') :: m' =>
      if decide (k = k') then (k', v) :: m' else (k', v') :: dict_set k v m'
  end.

(** The body of the loop of [_unique_devices]. *)
Definition unique_step (uniq : list (Key * DeviceInfo)) (d : DeviceInfo) :=
  match device_key d with
  | None => uniq                       (* continue *)
  | Some key => dict_set key d uniq
  end.

(** [OcypusController._unique_devices] *)
Definition _unique_devices (devices : list DeviceInfo) : list DeviceInfo :=
  let uniq := fold_left unique_step devices [] in
  map snd uniq.

(** The distinct keys of a list in order of first appearance. *)
Fixpoint first_keys (ks : list Key) : list Key :=
  match ks with
  | [] => []
  | k :: ks' => k :: filter (λ k', k' ≠ k) (first_keys ks')
  end.

(** Deduplication as the specification words it: an entry is kept iff no
    earlier entry has the same key. *)
Fixpoint unique_keep_first (seen : list Key) (devices : list DeviceInfo)
  : list DeviceInfo :=
  match devices with
  | [] => []
  | d :: ds =>
      match device_key d with
      | None => unique_keep_first seen ds
      | Some k =>
          if decide (k ∈ seen) then unique_keep_first seen ds
          else d :: unique_keep_first (k :: seen) ds
      end
  end.

(** ** Candidate ordering *)

(** The local function [score] of [_sorted_candidates]; [x or 0] turns a
    missing entry (and 0) into 0. *)
Definition score (d : DeviceInfo) : Z * Z :=
  let up := default 0 (usage_page d) in
  let iface := default 0 (info_interface_number d) in
  let vendor := if 0xFF00 <=? up then 1 else 0 in
  (vendor, iface).

(** Python's order on tuples of two integers. *)
Definition tuple_ltb (a b : Z * Z) : bool :=
  (a.1 <? b.1) || ((a.1 =? b.1) && (a.2 <? b.2)).

(** [sorted(..., key=score, reverse=True)] is a stable sort in descending
    order of the key: entries of equal key keep their relative order.
    [insert_desc x l] puts [x], which came before every entry of [l] in
    the input, in front of the first entry whose key is not greater. *)
Fixpoint insert_desc (x : DeviceInfo) (l : list DeviceInfo) : list DeviceInfo :=
  match l with
  | [] => [x]
  | y :: l' =>
      if tuple_ltb (score x) (score y) then y :: insert_desc x l'
      else x :: y :: l'
  end.

(** [OcypusController._sorted_candidates] *)
Definition _sorted_candidates (devices : list DeviceInfo) : list DeviceInfo :=
  foldr insert_desc [] devices.

(** The two parts of the key, named: whether the usage page is in the
    vendor-defined range, and the interface number (0 when absent). *)
Definition is_vendor (d : DeviceInfo) : bool := 0xFF00 <=? default 0 (usage_page d).
Definition iface_of (d : DeviceInfo) : Z := default 0 (info_interface_number d).

(** [a] ranks strictly above [b]. *)
Definition ranks_above (a b : DeviceInfo) : Prop :=
  (is_vendor a = true ∧ is_vendor b = false) ∨
  (is_vendor a = is_vendor b ∧ iface_of b < iface_of a).

(** [a] does not rank below [b]. *)
Definition not_below (a b : DeviceInfo) : Prop :=
  tuple_ltb (score a) (score b) = false.

(** ** The HID layer and the effects of the driver *)

(** Exceptions the driver sees: those raised by the [hid] module, its own
    [RuntimeError(f"write() returned {written}")], and the errors of
    [int(round(x))] on a float that is not finite. *)
Inductive Exn :=
| HidError (msg : string)
| WriteReturned (written : Z)
| OverflowError (msg : string)
| ValueError (msg : string).

(** An opened [hid.device()] object, identified by the path given to
    [open_path]. *)
Record Handle := { handle_path : string }.

(** The fields of [OcypusController]. *)
Record Controller := {
  device : option Handle;
  interface_number : option Z;
  path : option string;
}.

(** [OcypusController.__init__] *)
Definition __init__ : Controller :=
  {| device := None; interface_number := None; path := None |}.

(** What the driver prints. *)
Inductive Msg :=
| MsgNoCooler                       (* No Ocypus cooler found. *)
| MsgConnected (iface : Z)          (* Connected to Ocypus cooler on interface .. *)
| MsgNoWorking                      (* Error: No working Ocypus interface found. *)
| MsgLastError (e : Exn)            (* Last error: .. *)
| MsgErrorClosing (e : Exn)         (* Error closing device: .. *)
| MsgNotConnected                   (* Device not connected. *)
| MsgErrorSending (e : Exn)         (* Error sending temperature: .. *)
| MsgErrorBlanking (e : Exn)        (* Error blanking display: .. *)
| MsgStarting (unit : string) (refresh_rate : Q)
| MsgSensorTemp (sensor_name : string) (display_temp : Q) (unit_symbol : string)
| MsgFailedToSend                   (* Failed to send temperature *)
| MsgSensorNotFound (substring : string)
| MsgStopping                       (* Stopping temperature display. *)
| MsgLoopError (e : Exn).           (* Error in display loop: .. *)

(** Observable effects, in the order they happen.  A call of the [hid]
    module is recorded with its outcome. *)
Inductive Event :=
| EvOpenPath (p : string) (raised : option Exn)
| EvWrite (p : string) (report : Report) (result : Exn + Z)
| EvClose (p : string) (raised : option Exn)
| EvSleep (seconds : Q)
| EvPrint (m : Msg).

(** The behaviour of the device and of the operating system: the outcome
    of each [hid] call, which may depend on everything that happened
    before. *)
Record HidEnv := {
  open_path_result : list Event → string → option Exn;
  write_result : list Event → string → Report → Exn + Z;
  close_result : list Event → string → option Exn;
}.

(** The mutable state: the controller object and the events so far. *)
Record World := { self : Controller; trace : list Event }.

(** Computations that read and change the state and return a value or
    raise an exception. *)
Definition M (A : Type) : Type := World → (Exn + A) * World.

#[global] Instance M_ret : MRet M := λ A x w, (inr x, w).
#[global] Instance M_bind : MBind M := λ A B f c w,
  match c w with
  | (inl e, w') => (inl e, w')
  | (inr x, w') => f x w'
  end.

Definition raise {A} (e : Exn) : M A := λ w, (inl e, w).

(** [try: body except Exception as e: handler(e)] *)
Definition try_except {A} (body : M A) (handler : Exn → M A) : M A := λ w,
  match body w with
  | (inl e, w') => handler e w'
  | (inr x, w') => (inr x, w')
  end.

Definition get_self : M Controller := λ w, (inr (self w), w).
Definition set_self (c : Controller) : M unit :=
  λ w, (inr tt, {| self := c; trace := trace w |}).
Definition emit (ev : Event) : M unit :=
  λ w, (inr tt, {| self := self w; trace := trace w ++ [ev] |}).
Definition print (m : Msg) : M unit := emit (EvPrint m).
(** [time.sleep(seconds)], for an interval that [time.sleep] accepts. *)
Definition sleep (seconds : Q) : M unit := emit (EvSleep seconds).

(** [device.open_path(path)] *)
Definition hid_open_path (env : HidEnv) (p : string) : M unit := λ w,
  let r := open_path_result env (trace w) p in
  let w' := {| self := self w; trace := trace w ++ [EvOpenPath p r] |} in
  match r with
  | Some e => (inl e, w')
  | None => (inr tt, w')
  end.

(** [device.write(report)] *)
Definition hid_write (env : HidEnv) (h : Handle) (report : Report) : M Z := λ w,
  let r := write_result env (trace w) (handle_path h) report in
  (r, {| self := self w; trace := trace w ++ [EvWrite (handle_path h) report r] |}).

(** [device.close()] *)
Definition hid_close (env : HidEnv) (h : Handle) : M unit := λ w,
  let r := close_result env (trace w) (handle_path h) in
  let w' := {| self := self w; trace := trace w ++ [EvClose (handle_path h) r] |} in
  match r with
  | Some e => (inl e, w')
  | None => (inr tt, w')
  end.

(** ** Opening and closing the panel *)

(** The [for device_info in candidates] loop of [open], with the code
    after it; [last_err] is the loop's variable of that name. *)
Fixpoint open_candidates (env : HidEnv) (candidates : list DeviceInfo)
    (last_err : option Exn) : M bool :=
  match candidates with
  | [] =>
      print MsgNoWorking;;
      match last_err with
      | Some e => print (MsgLastError e)
      | None => mret tt
      end;;
      mret false
  | device_info :: rest =>
      match info_interface_number device_info, info_path device_info with
      | Some interface_number, Some path =>
          let device := {| handle_path := path |} in
          try_except
            (hid_open_path env path;;
             let probe := _build_display_report 0 in
             written ← hid_write env device probe;
             (if written <=? 0 then raise (WriteReturned written) else mret tt);;
             set_self {| device := Some device;
                         interface_number := Some interface_number;
                         path := Some path |};;
             print (MsgConnected interface_number);;
             mret true)
            (λ e,
               try_except (hid_close env device) (λ _, mret tt);;
               open_candidates env rest (Some e))
      | _, _ => open_candidates env rest last_err      (* continue *)
      end
  end.

(** [OcypusController.open]; [devices] is what [hid.enumerate(VID, PID)]
    returned. *)
Definition open (env : HidEnv) (devices : list DeviceInfo) : M bool :=
  match devices with
  | [] => print MsgNoCooler;; mret false
  | _ :: _ =>
      let candidates := _sorted_candidates (_unique_devices devices) in
      open_candidates env candidates None
  end.

(** [OcypusController.close] *)
Definition close (env : HidEnv) : M unit :=
  c ← get_self;
  match device c with
  | Some h =>
      try_except (hid_close env h) (λ e, print (MsgErrorClosing e));;
      set_self {| device := None; interface_number := None; path := None |}
  | None => mret tt
  end.

(** [OcypusController.list_devices] *)
Definition list_devices (devices : list DeviceInfo) : list DeviceInfo :=
  _unique_devices devices.

(** ** Strings *)

Definition lower_ascii (c : ascii) : ascii :=
  let n := nat_of_ascii c in
  if (65 <=? n)%nat && (n <=? 90)%nat then ascii_of_nat (n + 32) else c.

(** [s.lower()], on ASCII text. *)
Fixpoint lower (s : string) : string :=
  match s with
  | EmptyString => EmptyString
  | String c s' => String (lower_ascii c) (lower s')
  end.

Fixpoint starts_with (sub s : string) : bool :=
  match sub, s with
  | EmptyString, _ => true
  | String a sub', String b s' => Ascii.eqb a b && starts_with sub' s'
  | String _ _, EmptyString => false
  end.

(** [sub in s] *)
Fixpoint str_contains (sub s : string) : bool :=
  starts_with sub s ||
  match s with
  | EmptyString => false
  | String _ s' => str_contains sub s'
  end.

(** ** Sending a reading *)

(** Python's [round] on the exact value of a number: to the nearest
    integer, a tie to the even one. *)
Definition py_round (x : Q) : Z :=
  let f := Qfloor x in
  match Qcompare (x - inject_Z f) (1 # 2) with
  | Lt => f
  | Gt => f + 1
  | Eq => if Z.even f then f else f + 1
  end.

(** [unit.lower() == "f"] *)
Definition is_fahrenheit (unit : string) : bool := String.eqb (lower unit) "f".

(** The temperature in the unit of the display, for a reading given by
    its exact value and a conversion without rounding error, as for the
    keepalive's 0.  The conversion as double precision computes it, and
    readings that are not finite, are in [Binary64] below. *)
Definition display_temp (temp_celsius : Q) (unit : string) : Q :=
  if is_fahrenheit unit then (temp_celsius * 9 / 5 + 32)%Q else temp_celsius.

(** The integer [value_int] that [send_temperature] encodes. *)
Definition display_value (temp_celsius : Q) (unit : string) : Z :=
  let value_int := py_round (display_temp temp_celsius unit) in
  Z.max 0 (Z.min 212 value_int).

(** [OcypusController.send_temperature], on such a reading. *)
Definition send_temperature (env : HidEnv) (temp_celsius : Q) (unit : string)
  : M bool :=
  c ← get_self;
  match device c with
  | None => print MsgNotConnected;; mret false
  | Some h =>
      let value_int := display_value temp_celsius unit in
      try_except
        (let report := _build_display_report value_int in
         written ← hid_write env h report;
         if written <=? 0 then raise (WriteReturned written) else mret true)
        (λ e, print (MsgErrorSending e);; mret false)
  end.

(** [OcypusController.blank_display] *)
Definition blank_display (env : HidEnv) : M bool :=
  c ← get_self;
  match device c with
  | None => print MsgNotConnected;; mret false
  | Some h =>
      try_except
        (let report := empty_report in
         written ← hid_write env h report;
         if written <=? 0 then raise (WriteReturned written) else mret true)
        (λ e, print (MsgErrorBlanking e);; mret false)
  end.

(** ** Sensors and the display loop *)

(** One entry of [psutil.sensors_temperatures()]. *)
Record shwtemp := { label : string; current : Q }.

(** The mapping from group name to readings, in iteration order. *)
Abbreviation Sensors := (list (string * list shwtemp)).

(** [find_sensor_by_substring] *)
Fixpoint find_sensor_by_substring (sensors : Sensors) (substring : string)
  : option (string * Q) :=
  match sensors with
  | [] => None
  | (sensor_name, sensor_list) :: rest =>
      match str_contains (lower substring) (lower sensor_name), sensor_list with
      | true, first :: _ => Some (sensor_name, current first)
      | _, _ => find_sensor_by_substring rest substring
      end
  end.

(** A group counts for the search when its name contains the substring,
    compared in lower case, and it has at least one reading. *)
Definition name_contains (substring sensor_name : string) : Prop :=
  ∃ before after,
    lower sensor_name = before +:+ lower substring +:+ after.

Definition usable_group (substring : string) (g : string * list shwtemp) : Prop :=
  name_contains substring g.1 ∧ g.2 ≠ [].

(** What one pass of the loop reads from outside: the sensors returned by
    [get_temperature_sensors()] and the clock [time.time()]. *)
Record Tick := { tick_sensors : Sensors; tick_time : Q }.

(** The body of [while True] in [run_display_loop]; the value is the new
    [last_keepalive]. *)
Definition loop_iteration (env : HidEnv) (sensor_substring unit : string)
    (refresh_rate : Q) (last_keepalive : Q) (tk : Tick) : M Q :=
  try_except
    (let sensors := tick_sensors tk in
     let sensor_data := find_sensor_by_substring sensors sensor_substring in
     last_keepalive' ←
       match sensor_data return M Q with
       | Some (sensor_name, temp_celsius) =>
           success ← send_temperature env temp_celsius unit;
           (if success : bool then
              let shown := if String.eqb (lower unit) "c" then temp_celsius
                           else (temp_celsius * 9 / 5 + 32)%Q in
              (* the unit symbol, without its degree sign *)
              let unit_symbol := if String.eqb (lower unit) "c" then "C" else "F" in
              print (MsgSensorTemp sensor_name shown unit_symbol)
            else print MsgFailedToSend);;
           mret last_keepalive
       | None =>
           print (MsgSensorNotFound sensor_substring);;
           let current_time := tick_time tk in
           if Qle_bool KEEPALIVE_INTERVAL (current_time - last_keepalive) then
             send_temperature env 0 unit;;
             mret current_time
           else mret last_keepalive
       end;
     sleep refresh_rate;;
     mret last_keepalive')
    (λ e, print (MsgLoopError e);; sleep refresh_rate;; mret last_keepalive).

Fixpoint loop_ticks (env : HidEnv) (sensor_substring unit : string)
    (refresh_rate : Q) (last_keepalive : Q) (ticks : list Tick) : M Datatypes.unit :=
  match ticks with
  | [] => print MsgStopping                           (* KeyboardInterrupt *)
  | tk :: rest =>
      last_keepalive' ←
        loop_iteration env sensor_substring unit refresh_rate last_keepalive tk;
      loop_ticks env sensor_substring unit refresh_rate last_keepalive' rest
  end.

(** [run_display_loop], run for the passes [ticks] and then interrupted;
    [start_time] is the clock read before the loop. *)
Definition run_display_loop (env : HidEnv) (sensor_substring unit : string)
    (refresh_rate : Q) (start_time : Q) (ticks : list Tick) : M Datatypes.unit :=
  print (MsgStarting unit refresh_rate);;
  let last_keepalive := start_time in
  loop_ticks env sensor_substring unit refresh_rate last_keepalive ticks.

(** The reports written to the device, oldest first. *)
Definition writes (tr : list Event) : list Report :=
  omap (λ ev, match ev with EvWrite _ r _ => Some r | _ => None end) tr.

(** ** Vocabulary of the statements about [open] *)

(** The report of the validating write. *)
Definition probe : Report := _build_display_report 0.

(** A candidate validates after the events [tr]: [open_path] succeeds and
    the write of the probe returns a positive byte count [n]. *)
Definition validated (env : HidEnv) (tr : list Event) (p : string) (n : Z) : Prop :=
  open_path_result env tr p = None ∧
  write_result env (tr ++ [EvOpenPath p None]) p probe = inr n ∧
  0 < n.

Definition validates (env : HidEnv) (tr : list Event) (p : string) : Prop :=
  ∃ n, validated env tr p n.

(** The events of one failed attempt on path [p] and its error: the handle
    is closed at the end in every case. *)
Inductive failed_attempt (p : string) : list Event → Exn → Prop :=
| failed_open e c :
    failed_attempt p [EvOpenPath p (Some e); EvClose p c] e
| failed_write_raised e c :
    failed_attempt p [EvOpenPath p None; EvWrite p probe (inl e); EvClose p c] e
| failed_write_count n c :
    n <= 0 →
    failed_attempt p [EvOpenPath p None; EvWrite p probe (inr n); EvClose p c]
      (WriteReturned n).

(** [all_failed env tr cands evs e0 e1]: starting after the events [tr],
    every candidate of [cands] was tried in order and failed, giving the
    events [evs]; [e0] is the last error before and [e1] the last error
    after. *)
Inductive all_failed (env : HidEnv)
  : list Event → list DeviceInfo → list Event → option Exn → option Exn → Prop :=
| all_failed_nil tr e0 : all_failed env tr [] [] e0 e0
| all_failed_cons tr d i p rest evs e evs' e0 e1 :
    info_interface_number d = Some i → info_path d = Some p →
    ¬ validates env tr p →
    failed_attempt p evs e →
    all_failed env (tr ++ evs) rest evs' (Some e) e1 →
    all_failed env tr (d :: rest) (evs ++ evs') e0 e1
| all_failed_skip tr d rest evs e0 e1 :
    device_key d = None →
    all_failed env tr rest evs e0 e1 →
    all_failed env tr (d :: rest) evs e0 e1.

(** The world once the handle on [p] has been closed after the events
    [tr]. *)
Definition closed_after (env : HidEnv) (c : Controller) (tr : list Event)
    (p : string) : World :=
  {| self := c; trace := tr ++ [EvClose p (close_result env tr p)] |}.

(** The controller bound to the interface [i] at path [p]. *)
Definition connected_to (i : Z) (p : string) : Controller :=
  {| device := Some {| handle_path := p |};
     interface_number := Some i;
     path := Some p |}.

(** The three fields are all unset or all set, to the same interface. *)
Definition coherent (c : Controller) : Prop :=
  c = __init__ ∨ ∃ i p, c = connected_to i p.

(** The messages that end a failed [open] over a non-empty enumeration. *)
Definition no_working_messages (last_err : option Exn) : list Event :=
  EvPrint MsgNoWorking ::
  match last_err with
  | Some e => [EvPrint (MsgLastError e)]
  | None => []
  end.

(** ** Vocabulary of the statements about the display loop *)

(** No sensor matches on this pass. *)
Definition unmatched (sensor_substring : string) (tk : Tick) : Prop :=
  find_sensor_by_substring (tick_sensors tk) sensor_substring = None.

(** The number of passes, among passes at the clock values [times] on
    which no sensor matches, at which a keepalive falls due. *)
Fixpoint keepalives_due (last_keepalive : Q) (times : list Q) : nat :=
  match times with
  | [] => 0
  | t :: rest =>
      if Qle_bool KEEPALIVE_INTERVAL (t - last_keepalive)
      then S (keepalives_due t rest)
      else keepalives_due last_keepalive rest
  end.

(** The report of a keepalive: 0 degrees Celsius in the unit of the
    display. *)
Definition keepalive_report (unit : string) : Report :=
  _build_display_report (display_value 0 unit).

(** ** The context manager *)

(** [OcypusController.__enter__]: opens the device, whatever the outcome. *)
Definition __enter__ (env : HidEnv) (devices : list DeviceInfo) : M Datatypes.unit :=
  open env devices;; mret tt.

(** [OcypusController.__exit__]: closes the device. *)
Definition __exit__ (env : HidEnv) : M Datatypes.unit := close env.

(** The body of a [with] statement followed by [__exit__], which runs when
    the body returns and when it raises; an exception of the body is
    raised again afterwards. *)
Definition body_then_exit {A} (env : HidEnv) (body : M A) : M A := λ w,
  match body w with
  | (r, w') =>
      match __exit__ env w' with
      | (inl e, w'') => (inl e, w'')
      | (inr _, w'') => (r, w'')
      end
  end.

(** [with OcypusController() as controller: body], on a fresh controller. *)
Definition with_controller {A} (env : HidEnv) (devices : list DeviceInfo)
    (body : M A) : M A :=
  set_self __init__;;
  __enter__ env devices;;
  body_then_exit env body.

(** ** The debugging report of the sensors *)

Definition newline : string := String (ascii_of_nat 10) EmptyString.

(** One line of [build_temperature_report]; [format_1f] is the format
    [:.1f] of a reading. *)
Definition report_line (format_1f : Q → string) (sensor_substring sensor_name : string)
    (sensor : shwtemp) : string :=
  let temp_str := format_1f (current sensor) +:+ "°C" in
  let highlight :=
    if str_contains (lower sensor_substring) (lower sensor_name)
    then " ← SELECTED" else "" in
  "  " +:+ sensor_name +:+ ": " +:+ temp_str +:+ highlight.

(** The list [report_lines] of [build_temperature_report]. *)
Definition report_lines (format_1f : Q → string) (sensors : Sensors)
    (sensor_substring : string) : list string :=
  "Available temperature sensors:"%string ::
  flat_map (λ group, map (report_line format_1f sensor_substring group.1) group.2)
    sensors.

(** ["\n".join(lines)] *)
Fixpoint join_lines (lines : list string) : string :=
  match lines with
  | [] => EmptyString
  | [l] => l
  | l :: rest => l +:+ newline +:+ join_lines rest
  end.

(** [build_temperature_report]; [sensors] is what
    [get_temperature_sensors()] returned. *)
Definition build_temperature_report (format_1f : Q → string) (sensors : Sensors)
    (sensor_substring : string) : string :=
  match sensors with
  | [] => "No temperature sensors found."
  | _ :: _ => join_lines (report_lines format_1f sensors sensor_substring)
  end.

(** ** Vocabulary of the further statements *)

(** The paths given to [open_path], and those of the handles closed, in
    order. *)
Definition hid_opens (tr : list Event) : list string :=
  omap (λ ev, match ev with EvOpenPath p _ => Some p | _ => None end) tr.

Definition hid_closes (tr : list Event) : list string :=
  omap (λ ev, match ev with EvClose p _ => Some p | _ => None end) tr.

(** The arguments of [time.sleep], in order. *)
Definition sleeps (tr : list Event) : list Q :=
  omap (λ ev, match ev with EvSleep s => Some s | _ => None end) tr.

(** A byte value a [bytearray] accepts. *)
Definition is_byte (b : Z) : Prop := 0 <= b <= 255.

(** A sensor matches on this pass, with this reading. *)
Definition matched (sensor_substring : string) (tk : Tick) (name : string)
    (temp_celsius : Q) : Prop :=
  find_sensor_by_substring (tick_sensors tk) sensor_substring =
    Some (name, temp_celsius).


(** The world a fresh controller starts in, after the events of [w]. *)
Definition fresh (w : World) : World := {| self := __init__; trace := trace w |}.


(** ** The conversion in double precision *)

(** [send_temperature] on a reading that is a Python float: an IEEE 754
    binary64 number, with its arithmetic, its infinities and NaN. *)
Module Binary64.
Import PrimFloat SpecFloat FloatOps.

(** The exact value of a float, [None] for an infinity or NaN. *)
Definition float_value (x : float) : option Q :=
  match Prim2SF x with
  | S754_zero _ => Some 0%Q
  | S754_finite s m e =>
      Some ((if s then -1 else 1) * inject_Z (Z.pos m) * 2 ^ e)%Q
  | S754_infinity _ => None
  | S754_nan => None
  end.

(** [int(round(x))]: the nearest integer to the value of [x], a tie to the
    even one; an infinity and NaN raise. *)
Definition int_round (x : float) : Exn + Z :=
  match float_value x with
  | Some q => inr (py_round q)
  | None =>
      if is_nan x
      then inl (ValueError "cannot convert float NaN to integer")
      else inl (OverflowError "cannot convert float infinity to integer")
  end.

(** [display_temp] of [send_temperature], lines 183-186. *)
Definition display_temp (temp_celsius : float) (unit : string) : float :=
  if is_fahrenheit unit then (temp_celsius * 9 / 5 + 32)%float
  else temp_celsius.

(** [value_int] of [send_temperature], lines 189-190, or the exception
    that line 189 raises. *)
Definition display_value (temp_celsius : float) (unit : string) : Exn + Z :=
  match int_round (display_temp temp_celsius unit) with
  | inl e => inl e
  | inr value_int => inr (Z.max 0 (Z.min 212 value_int))
  end.

(** [OcypusController.send_temperature]: the conversion and the rounding
    come before the [try], so what they raise reaches the caller. *)
Definition send_temperature (env : HidEnv) (temp_celsius : float) (unit : string)
  : M bool :=
  c ← get_self;
  match device c with
  | None => print MsgNotConnected;; mret false
  | Some h =>
      match display_value temp_celsius unit with
      | inl e => raise e
      | inr value_int =>
          try_except
            (let report := _build_display_report value_int in
             written ← hid_write env h report;
             if written <=? 0 then raise (WriteReturned written) else mret true)
            (λ e, print (MsgErrorSending e);; mret false)
      end
  end.

(** Readings used below: the doubles nearest to 45.833333333333336 and
    to 1e308. *)
Definition reading_45_83 : float := 0x1.6eaaaaaaaaaabp+5%float.
Definition reading_1e308 : float := 0x1.1ccf385ebc8ap+1023%float.

End Binary64.

#[local] Set Warnings "-clear-no-such-hyp".

(** ** Properties of the codec *)

Lemma clamp999_range v : 0 <= clamp999 v <= 999.
Proof. unfold clamp999. lia. Qed.

Lemma clamp999_id v : 0 <= v <= 999 -> clamp999 v = v.
Proof. unfold clamp999. lia. Qed.

Lemma build_report_shape v :
  _build_display_report v =
    [REPORT_ID; 0xFF; 0xFF;
     clamp999 v / 100; (clamp999 v mod 100) / 10; clamp999 v mod 10]
    ++ replicate 58 0.
Proof. reflexivity. Qed.

Lemma digits_recompose v :
  0 <= v <= 999 ->
  (0 <= v / 100 <= 9) /\ (0 <= (v mod 100) / 10 <= 9) /\ (0 <= v mod 10 <= 9)
  /\ v / 100 * 100 + (v mod 100) / 10 * 10 + v mod 10 = v.
Proof.
  intros Hv. Z.to_euclidean_division_equations. lia.
Qed.

(** C3: for [0 <= v <= 999] the report has [REPORT_LENGTH] bytes, starts
    with the report identifier [0x07] and the marker [0xFF 0xFF], carries
    the hundreds, tens and ones digits of [v] in bytes 3, 4 and 5 (each in
    [0..9], recomposing to [v]) and is zero everywhere else. *)
Theorem build_display_report_layout (v : Z) :
  0 <= v <= 999 ->
  let r := _build_display_report v in
  length r = REPORT_LENGTH /\
  r !! 0%nat = Some REPORT_ID /\ REPORT_ID = 0x07 /\
  r !! 1%nat = Some 0xFF /\ r !! 2%nat = Some 0xFF /\
  r !! 3%nat = Some (v / 100) /\
  r !! 4%nat = Some ((v mod 100) / 10) /\
  r !! 5%nat = Some (v mod 10) /\
  (0 <= v / 100 <= 9) /\ (0 <= (v mod 100) / 10 <= 9) /\ (0 <= v mod 10 <= 9) /\
  v / 100 * 100 + (v mod 100) / 10 * 10 + v mod 10 = v /\
  (forall i : nat, (6 <= i < REPORT_LENGTH)%nat -> r !! i = Some 0).
Proof.
  intros Hv r. subst r. rewrite build_report_shape, (clamp999_id v Hv).
  destruct (digits_recompose v Hv) as (Hh & Ht & Ho & Hsum).
  repeat split; try reflexivity; try lia.
  intros i [Hlo Hhi].
  rewrite lookup_app_r by (simpl; lia).
  apply lookup_replicate_2. simpl. unfold REPORT_LENGTH in Hhi. lia.
Qed.

Lemma build_display_report_layout_witness :
  let r := _build_display_report 45 in
  length r = REPORT_LENGTH /\ r !! 3%nat = Some 0 /\ r !! 4%nat = Some 4 /\
  r !! 5%nat = Some 5.
Proof.
  pose proof (build_display_report_layout 45 ltac:(lia)) as H.
  cbv zeta in H. intros r. subst r.
  destruct H as (H0 & _ & _ & _ & _ & H3 & H4 & H5 & _).
  exact (conj H0 (conj H3 (conj H4 H5))).
Defined.

(** C7: values below 0 encode as 0, values above 999 encode as 999, and
    the clamp is idempotent. *)
Theorem build_display_report_clamps :
  (forall v, v < 0 -> _build_display_report v = _build_display_report 0) /\
  (forall v, v > 999 -> _build_display_report v = _build_display_report 999) /\
  (forall v, clamp999 (clamp999 v) = clamp999 v).
Proof.
  split; [| split].
  - intros v Hv. rewrite !build_report_shape.
    replace (clamp999 v) with (clamp999 0) by (unfold clamp999; lia).
    reflexivity.
  - intros v Hv. rewrite !build_report_shape.
    replace (clamp999 v) with (clamp999 999) by (unfold clamp999; lia).
    reflexivity.
  - intros v. unfold clamp999. lia.
Qed.


(** ** Deduplication of the enumerated interfaces *)

Lemma elem_of_first_keys (ks : list Key) (k : Key) :
  k ∈ first_keys ks ↔ k ∈ ks.
Proof.
  induction ks as [|a ks IH]; simpl; [done |].
  rewrite !elem_of_cons, list_elem_of_filter, IH.
  destruct (decide (k = a)); naive_solver.
Qed.

Lemma NoDup_first_keys (ks : list Key) : NoDup (first_keys ks).
Proof.
  induction ks as [|a ks IH]; simpl; [constructor |].
  constructor.
  - rewrite list_elem_of_filter. naive_solver.
  - by apply NoDup_filter.
Qed.

Lemma first_keys_snoc (ks : list Key) (k : Key) :
  first_keys (ks ++ [k]) =
    if decide (k ∈ ks) then first_keys ks else first_keys ks ++ [k].
Proof.
  induction ks as [|a ks IH]; cbn [app first_keys].
  - rewrite decide_False; [done | apply not_elem_of_nil].
  - rewrite IH. destruct (decide (k ∈ ks)) as [Hin|Hin].
    + rewrite decide_True; [done | by right].
    + rewrite filter_app. destruct (decide (k = a)) as [->|Hne].
      * rewrite decide_True by left.
        rewrite filter_cons_False by naive_solver.
        by rewrite filter_nil, app_nil_r.
      * rewrite decide_False by (rewrite elem_of_cons; naive_solver).
        by rewrite filter_cons_True, filter_nil by done.
Qed.

Lemma dict_set_keys {V} (k : Key) (v : V) (m : list (Key * V)) :
  map fst (dict_set k v m) =
    if decide (k ∈ map fst m) then map fst m else map fst m ++ [k].
Proof.
  induction m as [|[k' v'] m IH]; cbn [dict_set map fst].
  - rewrite decide_False; [done | apply not_elem_of_nil].
  - destruct (decide (k = k')) as [->|Hne]; cbn [map fst].
    + rewrite decide_True; [done | left].
    + rewrite IH. destruct (decide (k ∈ map fst m)) as [Hin|Hin].
      * rewrite decide_True; [done | by right].
      * rewrite decide_False; [done |].
        rewrite elem_of_cons. naive_solver.
Qed.

Lemma dict_set_elem_of {V} (k : Key) (v : V) (m : list (Key * V)) k' v' :
  NoDup (map fst m) →
  (k', v') ∈ dict_set k v m →
  (k' = k ∧ v' = v) ∨ (k' ≠ k ∧ (k', v') ∈ m).
Proof.
  induction m as [|[a b] m IH]; simpl; intros Hnd Hin.
  - apply list_elem_of_singleton in Hin. naive_solver.
  - apply NoDup_cons in Hnd as [Ha Hnd].
    destruct (decide (k = a)) as [->|Hne].
    + apply elem_of_cons in Hin as [Heq|Hin]; [naive_solver |].
      right. split; [| by right].
      intros ->. apply Ha. apply list_elem_of_fmap. by exists (a, v').
    + apply elem_of_cons in Hin as [Heq|Hin].
      * injection Heq as -> ->. right. split; [done | left].
      * destruct (IH Hnd Hin) as [?|[? ?]]; [by left |].
        right. split; [done | by right].
Qed.

Lemma unique_fold_inv (l : list DeviceInfo) :
  let m := fold_left unique_step l [] in
  map fst m = first_keys (omap device_key l) ∧
  ∀ k d, (k, d) ∈ m →
    device_key d = Some k ∧
    ∃ pre post, l = pre ++ d :: post ∧
                Forall (λ d', device_key d' ≠ Some k) post.
Proof.
  induction l as [|x l IH] using rev_ind; simpl.
  - split; [done |]. intros k d Hin. by apply elem_of_nil in Hin.
  - destruct IH as [IHk IHv]. rewrite fold_left_app. simpl.
    set (m := fold_left unique_step l []) in *.
    rewrite omap_app. simpl. unfold unique_step.
    destruct (device_key x) as [kx|] eqn:Hkx.
    + split.
      * rewrite dict_set_keys, first_keys_snoc, IHk.
        destruct (decide (kx ∈ omap device_key l)) as [Hin|Hin].
        -- rewrite decide_True; [done | by apply elem_of_first_keys].
        -- rewrite decide_False; [done | by rewrite elem_of_first_keys].
      * intros k d Hin.
        apply dict_set_elem_of in Hin;
          [| rewrite IHk; apply NoDup_first_keys].
        destruct Hin as [[-> ->]|[Hne Hin]].
        -- split; [done |]. exists l, []. split; [done | constructor].
        -- destruct (IHv k d Hin) as (Hk & pre & post & -> & Hpost).
           split; [done |]. exists pre, (post ++ [x]).
           split; [by rewrite <- app_assoc |].
           apply Forall_app. split; [done |].
           constructor; [| constructor]. congruence.
    + rewrite app_nil_r. split; [done |].
      intros k d Hin.
      destruct (IHv k d Hin) as (Hk & pre & post & -> & Hpost).
      split; [done |]. exists pre, (post ++ [x]).
      split; [by rewrite <- app_assoc |].
      apply Forall_app. split; [done |].
      constructor; [| constructor]. congruence.
Qed.

Lemma unique_devices_addressable (devices : list DeviceInfo) (d : DeviceInfo) :
  d ∈ _unique_devices devices → is_Some (device_key d).
Proof.
  unfold _unique_devices. intros Hd.
  apply list_elem_of_fmap in Hd as ([k d'] & -> & Hin).
  destruct (unique_fold_inv devices) as [_ Hv].
  destruct (Hv k d' Hin) as [Hk _]. by exists k.
Qed.

(** C1 (as the code has it): [_unique_devices] returns one entry per
    distinct [(interface_number, path)] pair, in the order in which the
    pairs first appear; entries missing either part are discarded; and for
    a pair that occurs several times the entry kept is the last one
    enumerated. *)
Theorem unique_devices_keeps_last (devices : list DeviceInfo) :
  let result := _unique_devices devices in
  map device_key result = map Some (first_keys (omap device_key devices)) ∧
  NoDup (map device_key result) ∧
  (∀ d, d ∈ result →
     ∃ k pre post, device_key d = Some k ∧ devices = pre ++ d :: post ∧
                   Forall (λ d', device_key d' ≠ Some k) post) ∧
  (∀ d k, d ∈ devices → device_key d = Some k →
     ∃ d', d' ∈ result ∧ device_key d' = Some k).
Proof.
  intros result. subst result. unfold _unique_devices.
  destruct (unique_fold_inv devices) as [Hk Hv].
  set (m := fold_left unique_step devices []) in *.
  assert (Hkeys : map device_key (map snd m) = map Some (map fst m)).
  { rewrite !map_map. apply map_ext_in. intros [k d] Hin%list_elem_of_In.
    simpl. by destruct (Hv k d Hin). }
  split; [by rewrite Hkeys, Hk |].
  split.
  { rewrite Hkeys, Hk. apply (NoDup_fmap_2 Some), NoDup_first_keys. }
  split.
  - intros d Hd. apply list_elem_of_fmap in Hd as ([k d'] & -> & Hin).
    destruct (Hv k d' Hin) as (Hkd & pre & post & Hl & Hpost).
    by exists k, pre, post.
  - intros d k Hd Hkd.
    assert (Hin : k ∈ map fst m).
    { rewrite Hk. apply elem_of_first_keys.
      apply list_elem_of_omap. by exists d. }
    apply list_elem_of_fmap in Hin as ([k' d'] & Hkk & Hin). simpl in Hkk.
    subst k'. exists d'. split.
    + apply list_elem_of_fmap. by exists (k, d').
    + by destruct (Hv k d' Hin).
Qed.

(** C1 as stated fails: of two entries with the same
    [(interface_number, path)] the second is returned, not the first. *)
Lemma unique_devices_first_occurrence_counterexample :
  let first := {| info_interface_number := Some 1; info_path := Some "p"%string;
                  usage_page := Some 0xFF01; usage := Some 1 |} in
  let second := {| info_interface_number := Some 1; info_path := Some "p"%string;
                   usage_page := Some 0x0001; usage := Some 6 |} in
  device_key first = device_key second ∧
  unique_keep_first [] [first; second] = [first] ∧
  _unique_devices [first; second] = [second] ∧
  _unique_devices [first; second] ≠ unique_keep_first [] [first; second].
Proof.
  cbv zeta. split; [reflexivity |]. split; [reflexivity |].
  split; [reflexivity |]. vm_compute. discriminate.
Qed.

(** ** Ordering of the candidates *)

Lemma tuple_ltb_ranks (a b : DeviceInfo) :
  tuple_ltb (score b) (score a) = true ↔ ranks_above a b.
Proof.
  unfold tuple_ltb, score, ranks_above, is_vendor, iface_of. simpl.
  destruct (65280 <=? default 0 (usage_page a));
    destruct (65280 <=? default 0 (usage_page b)); simpl;
    rewrite ?andb_true_iff, ?orb_true_iff, ?Z.ltb_lt; naive_solver.
Qed.

Lemma tuple_ltb_spec (p q : Z * Z) :
  tuple_ltb p q = true ↔ p.1 < q.1 ∨ (p.1 = q.1 ∧ p.2 < q.2).
Proof.
  unfold tuple_ltb.
  rewrite orb_true_iff, andb_true_iff, !Z.ltb_lt, Z.eqb_eq. tauto.
Qed.

Lemma tuple_ltb_false (p q : Z * Z) :
  tuple_ltb p q = false ↔ q.1 < p.1 ∨ (p.1 = q.1 ∧ q.2 <= p.2).
Proof.
  rewrite <- not_true_iff_false, tuple_ltb_spec. lia.
Qed.

Lemma not_below_trans (a b c : DeviceInfo) :
  not_below a b → not_below b c → not_below a c.
Proof. unfold not_below. rewrite !tuple_ltb_false. lia. Qed.

Lemma insert_desc_perm (x : DeviceInfo) (l : list DeviceInfo) :
  insert_desc x l ≡ₚ x :: l.
Proof.
  induction l as [|y l IH]; simpl; [done |].
  destruct (tuple_ltb (score x) (score y)); [| done].
  rewrite IH. apply Permutation_swap.
Qed.

Lemma insert_desc_sorted (x : DeviceInfo) (l : list DeviceInfo) :
  StronglySorted not_below l → StronglySorted not_below (insert_desc x l).
Proof.
  induction 1 as [|y l Hs IH Hall]; simpl.
  - repeat constructor.
  - destruct (tuple_ltb (score x) (score y)) eqn:Hlt.
    + constructor; [done |].
      rewrite insert_desc_perm. constructor; [| done].
      unfold not_below. apply tuple_ltb_false.
      apply tuple_ltb_spec in Hlt. lia.
    + constructor; [by constructor |].
      constructor; [done |].
      eapply Forall_impl; [exact Hall |].
      intros z Hz. by apply (not_below_trans x y z).
Qed.

Lemma sorted_candidates_sorted (devices : list DeviceInfo) :
  StronglySorted not_below (_sorted_candidates devices).
Proof.
  induction devices as [|d l IH]; simpl; [constructor |].
  by apply insert_desc_sorted.
Qed.

Lemma StronglySorted_lookup_lt {A} (R : A → A → Prop) (l : list A)
    (i j : nat) (x y : A) :
  StronglySorted R l → l !! i = Some x → l !! j = Some y → (i < j)%nat →
  R x y.
Proof.
  intros Hs. revert i j. induction Hs as [|a l Hs IH Hall]; intros i j Hi Hj Hlt.
  - by rewrite lookup_nil in Hi.
  - destruct j as [|j]; [lia |]. simpl in Hj.
    destruct i as [|i]; simpl in Hi.
    + injection Hi as ->. rewrite Forall_forall in Hall. apply Hall.
      apply list_elem_of_lookup. by exists j.
    + apply (IH i j); [done | done | lia].
Qed.

Lemma sorted_candidates_perm (devices : list DeviceInfo) :
  _sorted_candidates devices ≡ₚ devices.
Proof.
  induction devices as [|d l IH]; simpl; [done |].
  by rewrite insert_desc_perm, IH.
Qed.

(** C6: [_sorted_candidates] returns the same candidates, ordered so that
    a candidate with a vendor-defined usage page (>= 0xFF00) comes before
    every one without, and among candidates that agree on that, a higher
    interface number comes before a lower one; so A(0xFF01, iface 1) sorts
    before B(0x0001, iface 5), and C(0xFF01, iface 3) before A. *)
Theorem sorted_candidates_order (devices : list DeviceInfo) :
  let result := _sorted_candidates devices in
  let A := {| info_interface_number := Some 1; info_path := Some "a"%string;
              usage_page := Some 0xFF01; usage := None |} in
  let B := {| info_interface_number := Some 5; info_path := Some "b"%string;
              usage_page := Some 0x0001; usage := None |} in
  let C := {| info_interface_number := Some 3; info_path := Some "c"%string;
              usage_page := Some 0xFF01; usage := None |} in
  result ≡ₚ devices ∧
  (∀ (i j : nat) (a b : DeviceInfo),
     result !! i = Some a → result !! j = Some b → ranks_above a b →
     (i < j)%nat) ∧
  ranks_above A B ∧ ranks_above C A ∧
  _sorted_candidates [B; A] = [A; B] ∧
  _sorted_candidates [A; C] = [C; A] ∧
  _sorted_candidates [B; A; C] = [C; A; B].
Proof.
  intros result A B C. subst result.
  split; [apply sorted_candidates_perm |].
  split.
  { intros i j a b Hi Hj Hab.
    apply tuple_ltb_ranks in Hab.
    destruct (decide (i < j)%nat) as [|Hge]; [done | exfalso].
    destruct (decide (i = j)) as [->|Hne].
    - rewrite Hi in Hj. injection Hj as ->.
      apply tuple_ltb_spec in Hab. lia.
    - assert (Hba : not_below b a).
      { apply (StronglySorted_lookup_lt not_below _ j i b a
                 (sorted_candidates_sorted devices) Hj Hi). lia. }
      unfold not_below in Hba. congruence. }
  split; [left; done |].
  split; [right; split; [done | by vm_compute] |].
  done.
Qed.

(** ** Sensor lookup *)

Lemma starts_with_spec (sub s : string) :
  starts_with sub s = true ↔ ∃ after, s = sub +:+ after.
Proof.
  revert s. induction sub as [|a sub IH]; intros s; simpl.
  - split; [intros _; by exists s | done].
  - destruct s as [|b s].
    + split; [done | intros [after H]; discriminate].
    + rewrite andb_true_iff, Ascii.eqb_eq, IH. split.
      * intros [-> [after ->]]. by exists after.
      * intros [after H]. injection H as -> ->. split; [done | by exists after].
Qed.

Lemma str_contains_spec (sub s : string) :
  str_contains sub s = true ↔ ∃ before after, s = before +:+ sub +:+ after.
Proof.
  induction s as [|c s IH]; simpl; rewrite orb_true_iff, starts_with_spec.
  - split.
    + intros [[after H]|H]; [| done]. by exists EmptyString, after.
    + intros ([|b before] & after & H); [| discriminate].
      left. by exists after.
  - rewrite IH. split.
    + intros [[after H]|(before & after & H)].
      * by exists EmptyString, after.
      * exists (String c before), after. simpl. by rewrite H.
    + intros ([|b before] & after & H).
      * left. by exists after.
      * right. simpl in H. injection H as -> ->. by exists before, after.
Qed.

Lemma find_sensor_cons (name : string) (rs : list shwtemp) (rest : Sensors)
    (substring : string) :
  find_sensor_by_substring ((name, rs) :: rest) substring =
    match rs with
    | first :: _ =>
        if str_contains (lower substring) (lower name)
        then Some (name, current first)
        else find_sensor_by_substring rest substring
    | [] => find_sensor_by_substring rest substring
    end.
Proof.
  simpl. destruct (str_contains (lower substring) (lower name)), rs; done.
Qed.

Lemma usable_group_dec (substring name : string) (rs : list shwtemp) :
  usable_group substring (name, rs) ↔
  str_contains (lower substring) (lower name) = true ∧ rs ≠ [].
Proof. unfold usable_group, name_contains. by rewrite str_contains_spec. Qed.

Lemma classic_usable (substring name : string) (rs : list shwtemp) :
  usable_group substring (name, rs) ∨ ¬ usable_group substring (name, rs).
Proof.
  rewrite usable_group_dec.
  destruct (str_contains (lower substring) (lower name)), rs; naive_solver.
Qed.

(** C10: [find_sensor_by_substring] returns the first group, in iteration
    order, whose name contains the substring in lower case and whose list
    of readings is not empty, with the [current] value of its first
    reading; a matching group without readings is passed over; the result
    is [None] exactly when there is no such group. *)
Theorem find_sensor_first_usable (sensors : Sensors) (substring : string) :
  (∀ name v,
     find_sensor_by_substring sensors substring = Some (name, v) ↔
     ∃ skipped first others later,
       sensors = skipped ++ (name, first :: others) :: later ∧
       Forall (λ g, ¬ usable_group substring g) skipped ∧
       name_contains substring name ∧ v = current first) ∧
  (find_sensor_by_substring sensors substring = None ↔
     Forall (λ g, ¬ usable_group substring g) sensors).
Proof.
  induction sensors as [|[n rs] rest [IHs IHn]].
  - split.
    + intros name v. split; [done |].
      intros ([|? ?] & ? & ? & ? & H & _); discriminate.
    + split; [constructor | done].
  - assert (Hskip : ¬ usable_group substring (n, rs) →
                    find_sensor_by_substring ((n, rs) :: rest) substring =
                    find_sensor_by_substring rest substring).
    { rewrite usable_group_dec, find_sensor_cons. intros Hno.
      destruct rs as [|first others]; [done |].
      destruct (str_contains (lower substring) (lower n)); [| done].
      exfalso. by apply Hno. }
    destruct (classic_usable substring n rs) as [Hu|Hu].
    + (* the head is the first usable group *)
      pose proof Hu as Hu'. apply usable_group_dec in Hu' as [Hc Hne].
      destruct rs as [|first others]; [done |].
      assert (Hfind : find_sensor_by_substring ((n, first :: others) :: rest)
                        substring = Some (n, current first)).
      { by rewrite find_sensor_cons, Hc. }
      split.
      * intros name v. rewrite Hfind. split.
        -- intros [= <- <-]. exists [], first, others, rest.
           split; [done |]. split; [constructor |]. split; [apply Hu | done].
        -- intros ([|g skipped] & f & o & later & Heq & Hsk & Hnm & ->).
           ++ by injection Heq as <- <- <- <-.
           ++ injection Heq as <- ->. by apply Forall_cons in Hsk as [? _].
      * rewrite Hfind. split; [done |].
        intros [? _]%Forall_cons. done.
    + rewrite (Hskip Hu). split.
      * intros name v. rewrite IHs. split.
        -- intros (skipped & f & o & later & -> & Hsk & Hnm & ->).
           exists ((n, rs) :: skipped), f, o, later.
           split; [done |]. split; [by constructor | done].
        -- intros ([|g skipped] & f & o & later & Heq & Hsk & Hnm & ->).
           ++ injection Heq as -> ->. exfalso. apply Hu.
              split; [done | done].
           ++ injection Heq as <- ->. apply Forall_cons in Hsk as [_ Hsk].
              by exists skipped, f, o, later.
      * rewrite IHn. split.
        -- intros H. by constructor.
        -- by intros [_ ?]%Forall_cons.
Qed.

(** ** Rounding and unit conversion *)

Lemma py_round_nearest (x : Q) :
  (x - (1 # 2) <= inject_Z (py_round x) <= x + (1 # 2))%Q.
Proof.
  unfold py_round.
  pose proof (Qfloor_le x) as Hlo. pose proof (Qlt_floor x) as Hhi.
  rewrite inject_Z_plus in Hhi. change (inject_Z 1) with 1%Q in Hhi.
  destruct (Qcompare (x - inject_Z (Qfloor x)) (1 # 2)) eqn:Hc.
  - apply Qeq_alt in Hc.
    destruct (Z.even (Qfloor x)); rewrite ?inject_Z_plus;
      change (inject_Z 1) with 1%Q; lra.
  - apply Qlt_alt in Hc. lra.
  - apply Qgt_alt in Hc. rewrite inject_Z_plus.
    change (inject_Z 1) with 1%Q. lra.
Qed.

Lemma py_round_inject (n : Z) : py_round (inject_Z n) = n.
Proof.
  pose proof (py_round_nearest (inject_Z n)) as [Hlo Hhi].
  assert (n < py_round (inject_Z n) + 1).
  { rewrite Zlt_Qlt, inject_Z_plus. change (inject_Z 1) with 1%Q. lra. }
  assert (py_round (inject_Z n) < n + 1).
  { rewrite Zlt_Qlt, inject_Z_plus. change (inject_Z 1) with 1%Q. lra. }
  lia.
Qed.

Lemma py_round_above (x : Q) (n : Z) :
  (inject_Z n < x)%Q → n <= py_round x.
Proof.
  intros Hx. pose proof (py_round_nearest x) as [Hlo _].
  assert (n < py_round x + 1); [| lia].
  rewrite Zlt_Qlt, inject_Z_plus. change (inject_Z 1) with 1%Q. lra.
Qed.

Lemma py_round_below (x : Q) (n : Z) :
  (x < inject_Z n)%Q → py_round x <= n.
Proof.
  intros Hx. pose proof (py_round_nearest x) as [_ Hhi].
  assert (py_round x < n + 1); [| lia].
  rewrite Zlt_Qlt, inject_Z_plus. change (inject_Z 1) with 1%Q. lra.
Qed.

Lemma lower_ascii_f (c : ascii) :
  lower_ascii c = "f"%char ↔ c = "f"%char ∨ c = "F"%char.
Proof.
  split.
  - destruct c as [[] [] [] [] [] [] [] []]; vm_compute; intros H;
      try discriminate H; auto.
  - intros [-> | ->]; reflexivity.
Qed.

Lemma is_fahrenheit_spec (unit : string) :
  is_fahrenheit unit = true ↔ unit = "f"%string ∨ unit = "F"%string.
Proof.
  unfold is_fahrenheit. rewrite String.eqb_eq.
  destruct unit as [|c [|c' rest]]; simpl.
  - split; [discriminate | intros [|]; discriminate].
  - split.
    + intros [= H]. apply lower_ascii_f in H as [-> | ->]; auto.
    + intros [[= ->] | [= ->]]; reflexivity.
  - split; [discriminate | intros [|]; discriminate].
Qed.

(** ** Sending to the panel *)

Lemma writes_app (tr1 tr2 : list Event) :
  writes (tr1 ++ tr2) = writes tr1 ++ writes tr2.
Proof. apply omap_app. Qed.

(** The world after [send_temperature] on an open connection: one write
    of the encoded value, and a message when the write failed. *)
Lemma send_temperature_open (env : HidEnv) (temp_celsius : Q) (unit : string)
    (w : World) (h : Handle) :
  device (self w) = Some h →
  let report := _build_display_report (display_value temp_celsius unit) in
  let r := write_result env (trace w) (handle_path h) report in
  let tr := trace w ++ [EvWrite (handle_path h) report r] in
  send_temperature env temp_celsius unit w =
    match r with
    | inr written =>
        if written <=? 0
        then (inr false,
              {| self := self w;
                 trace := tr ++ [EvPrint (MsgErrorSending (WriteReturned written))] |})
        else (inr true, {| self := self w; trace := tr |})
    | inl e =>
        (inr false,
         {| self := self w; trace := tr ++ [EvPrint (MsgErrorSending e)] |})
    end.
Proof.
  intros Hdev. cbv zeta.
  unfold send_temperature, mbind, M_bind, get_self. rewrite Hdev.
  unfold try_except, hid_write. cbn [self trace].
  destruct (write_result env (trace w) (handle_path h)
              (_build_display_report (display_value temp_celsius unit)))
    as [e|written]; [reflexivity |].
  destruct (written <=? 0); reflexivity.
Qed.

Lemma send_temperature_open_summary (env : HidEnv) (temp_celsius : Q)
    (unit : string) (w : World) (h : Handle) :
  device (self w) = Some h →
  ∃ (b : bool) (w' : World),
    send_temperature env temp_celsius unit w = (inr b, w') ∧
    self w' = self w ∧
    writes (trace w') =
      writes (trace w) ++ [_build_display_report (display_value temp_celsius unit)].
Proof.
  intros Hdev. rewrite (send_temperature_open env _ _ w h Hdev). cbv zeta.
  destruct (write_result env (trace w) (handle_path h) _) as [e|written];
    [| destruct (written <=? 0)];
    eexists _, _; (split; [reflexivity |]); cbn [self trace];
    (split; [reflexivity |]); rewrite ?writes_app; simpl;
    by rewrite ?app_nil_r.
Qed.

Lemma display_value_range (temp_celsius : Q) (unit : string) :
  0 <= display_value temp_celsius unit <= 212.
Proof. unfold display_value. lia. Qed.

(** A reading of 45 degrees shows the digits 0 4 5 in Celsius and 1 1 3
    in Fahrenheit. *)
Example digits_of_45_degrees :
  take 6 (_build_display_report (display_value 45 "c")) = [7; 255; 255; 0; 4; 5] ∧
  take 6 (_build_display_report (display_value 45 "f")) = [7; 255; 255; 1; 1; 3].
Proof. by vm_compute. Qed.

(** C8: without an open handle [send_temperature] and [blank_display]
    return [False] after printing "Device not connected."; they write
    nothing to any device and raise nothing. *)
Theorem not_connected_fails (env : HidEnv) (temp_celsius : Q) (unit : string)
    (w : World) :
  device (self w) = None →
  let w' := {| self := self w;
               trace := trace w ++ [EvPrint MsgNotConnected] |} in
  send_temperature env temp_celsius unit w = (inr false, w') ∧
  blank_display env w = (inr false, w') ∧
  writes (trace w') = writes (trace w).
Proof.
  intros Hdev w'. subst w'.
  unfold send_temperature, blank_display, mbind, M_bind, get_self.
  rewrite Hdev. cbn [trace].
  split; [reflexivity |]. split; [reflexivity |].
  rewrite writes_app. simpl. by rewrite app_nil_r.
Qed.

Lemma not_connected_fails_witness :
  let env := {| open_path_result := λ _ _, None;
                write_result := λ _ _ _, inr 64;
                close_result := λ _ _, None |} in
  let w := {| self := __init__; trace := [] |} in
  send_temperature env 45 "c" w =
    (inr false, {| self := __init__; trace := [EvPrint MsgNotConnected] |}) ∧
  blank_display env w =
    (inr false, {| self := __init__; trace := [EvPrint MsgNotConnected] |}).
Proof.
  intros env w.
  destruct (not_connected_fails env 45 "c" w eq_refl) as (Hs & Hb & _).
  exact (conj Hs Hb).
Defined.

(** ** Opening the panel *)

Lemma open_candidates_nil (env : HidEnv) (last_err : option Exn) (w : World) :
  open_candidates env [] last_err w =
    (inr false,
     {| self := self w; trace := trace w ++ no_working_messages last_err |}).
Proof.
  unfold open_candidates, no_working_messages, mbind, M_bind, print, emit, mret,
    M_ret.
  destruct last_err; cbn [self trace]; by rewrite <- ?app_assoc, ?app_nil_r.
Qed.

Lemma open_candidates_skip (env : HidEnv) (d : DeviceInfo)
    (rest : list DeviceInfo) (last_err : option Exn) (w : World) :
  device_key d = None →
  open_candidates env (d :: rest) last_err w =
    open_candidates env rest last_err w.
Proof.
  unfold device_key. intros Hk. cbn [open_candidates].
  destruct (info_interface_number d), (info_path d); done.
Qed.

(** One pass of the loop of [open] on an addressable candidate. *)
Lemma open_candidates_step (env : HidEnv) (d : DeviceInfo)
    (rest : list DeviceInfo) (last_err : option Exn) (w : World)
    (i : Z) (p : string) :
  info_interface_number d = Some i → info_path d = Some p →
  let tr1 := trace w ++ [EvOpenPath p (open_path_result env (trace w) p)] in
  let r := write_result env tr1 p probe in
  let tr2 := tr1 ++ [EvWrite p probe r] in
  open_candidates env (d :: rest) last_err w =
    match open_path_result env (trace w) p with
    | Some e =>
        open_candidates env rest (Some e) (closed_after env (self w) tr1 p)
    | None =>
        match r with
        | inl e =>
            open_candidates env rest (Some e) (closed_after env (self w) tr2 p)
        | inr n =>
            if n <=? 0
            then open_candidates env rest (Some (WriteReturned n))
                   (closed_after env (self w) tr2 p)
            else (inr true,
                  {| self := connected_to i p;
                     trace := tr2 ++ [EvPrint (MsgConnected i)] |})
        end
    end.
Proof.
  intros Hi Hp. cbv zeta. cbn [open_candidates]. rewrite Hi, Hp.
  unfold try_except, mbind, M_bind, hid_open_path, hid_write, hid_close,
    closed_after, probe. cbn [self trace handle_path].
  destruct (open_path_result env (trace w) p) as [e|].
  { destruct (close_result env _ p); reflexivity. }
  destruct (write_result env _ p (_build_display_report 0)) as [e|n].
  { destruct (close_result env _ p); reflexivity. }
  destruct (n <=? 0) eqn:Hn.
  { unfold raise. destruct (close_result env _ p); reflexivity. }
  reflexivity.
Qed.

Lemma not_validates_open_failed (env : HidEnv) (tr : list Event) (p : string)
    (e : Exn) :
  open_path_result env tr p = Some e → ¬ validates env tr p.
Proof. intros H (n & H' & _). congruence. Qed.

Lemma not_validates_write_raised (env : HidEnv) (tr : list Event) (p : string)
    (e : Exn) :
  write_result env (tr ++ [EvOpenPath p None]) p probe = inl e →
  ¬ validates env tr p.
Proof. intros H (n & _ & H' & _). congruence. Qed.

Lemma not_validates_write_count (env : HidEnv) (tr : list Event) (p : string)
    (n : Z) :
  write_result env (tr ++ [EvOpenPath p None]) p probe = inr n → n <= 0 →
  ¬ validates env tr p.
Proof. intros H Hn (n' & _ & H' & Hpos). rewrite H in H'. injection H' as ->. lia. Qed.

(** What the loop of [open] does on any list of candidates. *)
Lemma open_candidates_spec (env : HidEnv) (candidates : list DeviceInfo) :
  ∀ (last_err : option Exn) (w : World),
  ∃ (b : bool) (w' : World),
    open_candidates env candidates last_err w = (inr b, w') ∧
    if b then
      ∃ failed d rest i p evs e1 n,
        candidates = failed ++ d :: rest ∧
        info_interface_number d = Some i ∧ info_path d = Some p ∧
        all_failed env (trace w) failed evs last_err e1 ∧
        validated env (trace w ++ evs) p n ∧
        trace w' = trace w ++ evs ++
                   [EvOpenPath p None; EvWrite p probe (inr n);
                    EvPrint (MsgConnected i)] ∧
        self w' = connected_to i p
    else
      ∃ evs e1,
        all_failed env (trace w) candidates evs last_err e1 ∧
        trace w' = trace w ++ evs ++ no_working_messages e1 ∧
        self w' = self w.
Proof.
  induction candidates as [|d rest IH]; intros last_err w.
  { eexists false, _. split; [apply open_candidates_nil |].
    exists [], last_err. split; [constructor |]. done. }
  destruct (device_key d) as [[i p]|] eqn:Hkey.
  2:{ rewrite (open_candidates_skip env d rest last_err w Hkey).
      destruct (IH last_err w) as (b & w' & Hrun & Hres).
      exists b, w'. split; [done |]. destruct b.
      - destruct Hres as (failed & d' & rest' & i & p & evs & e1 & n & -> & Hrest).
        exists (d :: failed), d', rest', i, p, evs, e1, n.
        split; [done |]. destruct Hrest as (? & ? & Hall & ?).
        split; [done |]. split; [done |]. split; [| done].
        by apply all_failed_skip.
      - destruct Hres as (evs & e1 & Hall & ?).
        exists evs, e1. split; [by apply all_failed_skip | done]. }
  assert (Hi : info_interface_number d = Some i ∧ info_path d = Some p).
  { unfold device_key in Hkey.
    destruct (info_interface_number d), (info_path d); naive_solver. }
  destruct Hi as [Hi Hp].
  rewrite (open_candidates_step env d rest last_err w i p Hi Hp). cbv zeta.
  (* the recursive case: this candidate failed with [e] and events [evs0] *)
  assert (Hfail : ∀ evs0 e,
            ¬ validates env (trace w) p → failed_attempt p evs0 e →
            ∃ (b : bool) (w' : World),
              open_candidates env rest (Some e)
                {| self := self w; trace := trace w ++ evs0 |} = (inr b, w') ∧
              if b then
                ∃ failed d' rest' i' p' evs e1 n,
                  d :: rest = failed ++ d' :: rest' ∧
                  info_interface_number d' = Some i' ∧ info_path d' = Some p' ∧
                  all_failed env (trace w) failed evs last_err e1 ∧
                  validated env (trace w ++ evs) p' n ∧
                  trace w' = trace w ++ evs ++
                             [EvOpenPath p' None; EvWrite p' probe (inr n);
                              EvPrint (MsgConnected i')] ∧
                  self w' = connected_to i' p'
              else
                ∃ evs e1,
                  all_failed env (trace w) (d :: rest) evs last_err e1 ∧
                  trace w' = trace w ++ evs ++ no_working_messages e1 ∧
                  self w' = self w).
  { intros evs0 e Hnv Hfa.
    destruct (IH (Some e) {| self := self w; trace := trace w ++ evs0 |})
      as (b & w' & Hrun & Hres).
    exists b, w'. split; [done |]. cbn [self trace] in Hres. destruct b.
    - destruct Hres as (failed & d' & rest' & i' & p' & evs & e1 & n & -> &
                        Hi' & Hp' & Hall & Hval & Htr & Hself).
      exists (d :: failed), d', rest', i', p', (evs0 ++ evs), e1, n.
      split; [done |]. split; [done |]. split; [done |].
      split; [by eapply all_failed_cons |].
      split; [by rewrite app_assoc |].
      split; [by rewrite Htr, <- !app_assoc | done].
    - destruct Hres as (evs & e1 & Hall & Htr & Hself).
      exists (evs0 ++ evs), e1.
      split; [by eapply all_failed_cons |].
      split; [by rewrite Htr, <- !app_assoc | done]. }
  unfold closed_after.
  destruct (open_path_result env (trace w) p) as [e|] eqn:Hopen.
  { rewrite <- app_assoc. apply Hfail; [| constructor].
    by eapply not_validates_open_failed. }
  destruct (write_result env (trace w ++ [EvOpenPath p None]) p probe)
    as [e|n] eqn:Hwrite.
  { rewrite <- !app_assoc. apply Hfail; [| constructor].
    by eapply not_validates_write_raised. }
  destruct (n <=? 0) eqn:Hn.
  { apply Z.leb_le in Hn. rewrite <- !app_assoc.
    apply Hfail; [| by constructor].
    by eapply not_validates_write_count. }
  apply Z.leb_gt in Hn.
  eexists true, _. split; [reflexivity |].
  exists [], d, rest, i, p, [], last_err, n.
  split; [done |]. split; [done |]. split; [done |].
  split; [constructor |].
  split; [by rewrite app_nil_r |].
  split; [| done]. cbn [trace]. by rewrite <- !app_assoc.
Qed.

Lemma all_failed_keeps_error (env : HidEnv) tr cands evs e0 e1 :
  all_failed env tr cands evs e0 e1 → is_Some e0 → is_Some e1.
Proof. induction 1; eauto. Qed.

Lemma all_failed_last_error (env : HidEnv) tr cands evs e0 e1 :
  all_failed env tr cands evs e0 e1 →
  (∃ d, d ∈ cands ∧ device_key d ≠ None) → is_Some e1.
Proof.
  induction 1 as [| tr d i p rest evs e evs' e0 e1 Hi Hp Hnv Hfa Hall IH
                  | tr d rest evs e0 e1 Hk Hall IH]; intros (d0 & Hin & Hd0).
  - by apply elem_of_nil in Hin.
  - eapply all_failed_keeps_error; [exact Hall | by eexists].
  - apply IH. exists d0. split; [| done].
    apply elem_of_cons in Hin as [->|Hin]; [congruence | done].
Qed.

Lemma open_empty (env : HidEnv) (w : World) :
  open env [] w =
    (inr false, {| self := self w; trace := trace w ++ [EvPrint MsgNoCooler] |}).
Proof. reflexivity. Qed.

(** The first candidate opens but its probe write returns 0, the second
    validates: [open] closes the first handle and binds to the second. *)
Example open_falls_back_to_second :
  let env := {| open_path_result := λ _ _, None;
                write_result := λ _ p _, if String.eqb p "hidraw4" then inr 0
                                         else inr 64;
                close_result := λ _ _, None |} in
  let keyboard := {| info_interface_number := Some 0; info_path := Some "hidraw3"%string;
                     usage_page := Some 0x0001; usage := Some 6 |} in
  let vendor := {| info_interface_number := Some 1; info_path := Some "hidraw4"%string;
                   usage_page := Some 0xFF01; usage := Some 1 |} in
  open env [keyboard; vendor] {| self := __init__; trace := [] |} =
    (inr true,
     {| self := connected_to 0 "hidraw3";
        trace := [EvOpenPath "hidraw4" None; EvWrite "hidraw4" probe (inr 0);
                  EvClose "hidraw4" None;
                  EvOpenPath "hidraw3" None; EvWrite "hidraw3" probe (inr 64);
                  EvPrint (MsgConnected 0)] |}).
Proof. by vm_compute. Qed.

(** C5: [open] tries the ordered candidates one by one.  With no
    enumerated device it fails at once with "No Ocypus cooler found." and
    touches nothing.  Otherwise it returns [True] bound to the first
    candidate that validates ([open_path] succeeds and the write of the
    value-0 report returns a positive count), after each earlier candidate
    failed to validate and had its handle closed; or it returns [False]
    with "No working Ocypus interface found." and the last error when every
    candidate failed, leaving the controller as it was. *)
Theorem open_selects_first_validated (env : HidEnv) (devices : list DeviceInfo)
    (w : World) :
  let candidates := _sorted_candidates (_unique_devices devices) in
  ∃ (b : bool) (w' : World),
    open env devices w = (inr b, w') ∧
    ((devices = [] ∧ b = false ∧ self w' = self w ∧
      trace w' = trace w ++ [EvPrint MsgNoCooler])
     ∨
     (devices ≠ [] ∧ b = true ∧
      ∃ failed d rest i p evs e1 n,
        candidates = failed ++ d :: rest ∧
        info_interface_number d = Some i ∧ info_path d = Some p ∧
        all_failed env (trace w) failed evs None e1 ∧
        validated env (trace w ++ evs) p n ∧
        trace w' = trace w ++ evs ++
                   [EvOpenPath p None; EvWrite p probe (inr n);
                    EvPrint (MsgConnected i)] ∧
        self w' = connected_to i p)
     ∨
     (devices ≠ [] ∧ b = false ∧
      ∃ evs e1,
        all_failed env (trace w) candidates evs None e1 ∧
        (candidates ≠ [] → is_Some e1) ∧
        trace w' = trace w ++ evs ++ no_working_messages e1 ∧
        self w' = self w)).
Proof.
  intros candidates. destruct devices as [|d0 ds].
  { eexists false, _. split; [apply open_empty |]. left. done. }
  destruct (open_candidates_spec env candidates None w) as (b & w' & Hrun & Hres).
  exists b, w'. split; [exact Hrun |]. right.
  destruct b.
  - left. split; [done |]. split; [done |]. exact Hres.
  - right. split; [done |]. split; [done |].
    destruct Hres as (evs & e1 & Hall & Htr & Hself).
    exists evs, e1. split; [done |]. split; [| done].
    intros Hne. eapply all_failed_last_error; [exact Hall |].
    destruct candidates as [|c cs] eqn:Hc; [done |].
    exists c. split; [left |].
    assert (Hin : c ∈ _unique_devices (d0 :: ds)).
    { rewrite <- (sorted_candidates_perm (_unique_devices (d0 :: ds))).
      fold candidates. rewrite Hc. left. }
    destruct (unique_devices_addressable _ _ Hin) as [k Hk]. congruence.
Qed.

(** ** The fields of the controller *)

Lemma close_closed (env : HidEnv) (w : World) :
  device (self w) = None → close env w = (inr tt, w).
Proof.
  intros Hdev. unfold close, mbind, M_bind, get_self. rewrite Hdev.
  reflexivity.
Qed.

Lemma close_open (env : HidEnv) (w : World) (h : Handle) :
  device (self w) = Some h →
  ∃ evs, close env w =
           (inr tt, {| self := __init__; trace := trace w ++ evs |}) ∧
         ∃ c, evs = EvClose (handle_path h) c ::
                    match c with
                    | Some e => [EvPrint (MsgErrorClosing e)]
                    | None => []
                    end.
Proof.
  intros Hdev.
  unfold close, mbind, M_bind, get_self, try_except, hid_close, set_self.
  rewrite Hdev. cbn [self trace].
  destruct (close_result env (trace w) (handle_path h)) as [e|] eqn:Hc.
  - exists [EvClose (handle_path h) (Some e); EvPrint (MsgErrorClosing e)].
    split; [| by exists (Some e)].
    unfold print, emit. cbn [self trace]. by rewrite <- app_assoc.
  - exists [EvClose (handle_path h) None]. split; [done | by exists None].
Qed.

Lemma blank_display_self (env : HidEnv) (w : World) :
  ∃ (b : bool) (w' : World),
    blank_display env w = (inr b, w') ∧ self w' = self w.
Proof.
  unfold blank_display, mbind, M_bind, get_self, try_except, hid_write.
  destruct (device (self w)) as [h|]; [| by eexists _, _].
  cbn [self trace].
  destruct (write_result env (trace w) (handle_path h) empty_report) as [e|n];
    [by eexists _, _ |].
  destruct (n <=? 0); by eexists _, _.
Qed.

Lemma send_temperature_self (env : HidEnv) (temp_celsius : Q) (unit : string)
    (w : World) :
  ∃ (b : bool) (w' : World),
    send_temperature env temp_celsius unit w = (inr b, w') ∧ self w' = self w.
Proof.
  destruct (device (self w)) as [h|] eqn:Hdev.
  - destruct (send_temperature_open_summary env temp_celsius unit w h Hdev)
      as (b & w' & Hrun & Hself & _).
    by exists b, w'.
  - unfold send_temperature, mbind, M_bind, get_self. rewrite Hdev.
    by eexists _, _.
Qed.

(** C9: the fields [device], [interface_number] and [path] are all unset
    or all set to the values of one validated candidate: so after
    [__init__]; [open] sets them, all three, only when it succeeds, and
    leaves them alone when it fails; [close] unsets all three, and does
    nothing at all on a closed controller; [send_temperature] and
    [blank_display] never change them. *)
Theorem controller_fields_coherent (env : HidEnv) :
  coherent __init__ ∧
  (∀ devices w, ∃ (b : bool) (w' : World),
     open env devices w = (inr b, w') ∧
     (b = true →
        ∃ d i p, d ∈ _sorted_candidates (_unique_devices devices) ∧
                 info_interface_number d = Some i ∧ info_path d = Some p ∧
                 self w' = connected_to i p) ∧
     (b = false → self w' = self w) ∧
     (coherent (self w) → coherent (self w'))) ∧
  (∀ w, ∃ w', close env w = (inr tt, w') ∧
     (device (self w) = None → w' = w) ∧
     (device (self w) ≠ None → self w' = __init__) ∧
     (coherent (self w) → self w' = __init__)) ∧
  (∀ temp_celsius unit w, ∃ (b : bool) (w' : World),
     send_temperature env temp_celsius unit w = (inr b, w') ∧
     self w' = self w) ∧
  (∀ w, ∃ (b : bool) (w' : World),
     blank_display env w = (inr b, w') ∧ self w' = self w).
Proof.
  split; [by left |].
  split.
  { intros devices w. destruct devices as [|d0 ds].
    { eexists false, _. split; [apply open_empty |]. done. }
    destruct (open_candidates_spec env
                (_sorted_candidates (_unique_devices (d0 :: ds))) None w)
      as (b & w' & Hrun & Hres).
    exists b, w'. split; [exact Hrun |]. destruct b.
    - destruct Hres as (failed & d & rest & i & p & evs & e1 & n & Hc & Hi &
                        Hp & _ & _ & _ & Hself).
      split.
      + intros _. exists d, i, p. rewrite Hc.
        split; [| done]. apply elem_of_app. right. left.
      + split; [done |]. intros _. right. by exists i, p.
    - destruct Hres as (evs & e1 & _ & _ & Hself).
      split; [done |]. split; [done |]. by rewrite Hself. }
  split.
  { intros w. destruct (device (self w)) as [h|] eqn:Hdev.
    - destruct (close_open env w h Hdev) as (evs & Hrun & _).
      eexists. split; [exact Hrun |]. done.
    - exists w. split; [by apply close_closed |].
      split; [done |]. split; [done |].
      intros [Hc | (i & p & Hc)]; [done |]. rewrite Hc in Hdev. discriminate. }
  split; [intros; apply send_temperature_self | intros; apply blank_display_self].
Qed.

(** ** The display loop *)

Lemma display_value_zero (unit : string) :
  display_value 0 unit = if is_fahrenheit unit then 32 else 0.
Proof.
  unfold display_value, display_temp.
  destruct (is_fahrenheit unit); by vm_compute.
Qed.

(** One pass on which no sensor matches, on an open connection. *)
Lemma loop_iteration_unmatched (env : HidEnv) (sensor_substring unit : string)
    (refresh_rate last_keepalive : Q) (tk : Tick) (w : World) (h : Handle) :
  unmatched sensor_substring tk →
  device (self w) = Some h →
  ∃ (last_keepalive' : Q) (w' : World),
    loop_iteration env sensor_substring unit refresh_rate last_keepalive tk w =
      (inr last_keepalive', w') ∧
    self w' = self w ∧
    if Qle_bool KEEPALIVE_INTERVAL (tick_time tk - last_keepalive)
    then last_keepalive' = tick_time tk ∧
         writes (trace w') = writes (trace w) ++ [keepalive_report unit]
    else last_keepalive' = last_keepalive ∧
         writes (trace w') = writes (trace w).
Proof.
  intros Hun Hdev. unfold unmatched in Hun.
  unfold loop_iteration, try_except. unfold mbind at 1. unfold M_bind at 1.
  rewrite Hun. unfold mbind at 1. unfold M_bind at 1.
  unfold print at 1. unfold emit at 1.
  set (w1 := {| self := self w;
                trace := trace w ++ [EvPrint (MsgSensorNotFound sensor_substring)] |}).
  assert (Hw1 : writes (trace w1) = writes (trace w)).
  { subst w1. cbn [trace]. rewrite writes_app. simpl. by rewrite app_nil_r. }
  destruct (Qle_bool KEEPALIVE_INTERVAL (tick_time tk - last_keepalive)).
  - destruct (send_temperature_open_summary env 0 unit w1 h Hdev)
      as (b & w2 & Hrun & Hself & Hwr).
    unfold mbind at 1. unfold M_bind at 1. rewrite Hrun.
    eexists _, _. split; [reflexivity |]. cbn [self trace].
    split; [by rewrite Hself |]. split; [done |].
    rewrite writes_app, Hwr, Hw1. simpl. by rewrite app_nil_r.
  - eexists _, _. split; [reflexivity |]. cbn [self trace].
    split; [done |]. split; [done |].
    rewrite writes_app, Hw1. simpl. by rewrite app_nil_r.
Qed.

Lemma loop_ticks_unmatched (env : HidEnv) (sensor_substring unit : string)
    (refresh_rate : Q) (h : Handle) (ticks : list Tick) :
  Forall (unmatched sensor_substring) ticks →
  ∀ (last_keepalive : Q) (w : World),
  device (self w) = Some h →
  ∃ w',
    loop_ticks env sensor_substring unit refresh_rate last_keepalive ticks w =
      (inr tt, w') ∧
    self w' = self w ∧
    writes (trace w') =
      writes (trace w) ++
      replicate (keepalives_due last_keepalive (map tick_time ticks))
        (keepalive_report unit).
Proof.
  induction 1 as [|tk rest Htk Hrest IH]; intros last_keepalive w Hdev.
  - eexists. split; [reflexivity |]. cbn [self trace].
    split; [done |]. rewrite writes_app. simpl. by rewrite !app_nil_r.
  - destruct (loop_iteration_unmatched env sensor_substring unit refresh_rate
                last_keepalive tk w h Htk Hdev) as (lk' & w1 & Hrun & Hself & Hcase).
    cbn [loop_ticks]. unfold mbind at 1. unfold M_bind at 1. rewrite Hrun.
    assert (Hdev1 : device (self w1) = Some h) by by rewrite Hself.
    destruct (IH lk' w1 Hdev1) as (w' & Hrun' & Hself' & Hwr').
    exists w'. split; [exact Hrun' |]. split; [by rewrite Hself', Hself |].
    rewrite Hwr'. cbn [map keepalives_due].
    destruct (Qle_bool KEEPALIVE_INTERVAL (tick_time tk - last_keepalive));
      destruct Hcase as [-> ->]; [| done].
    by rewrite <- app_assoc.
Qed.

(** With a pass every second (at least 1 s and less than 2 s after the
    previous one) two keepalives fall due in five passes. *)
Lemma keepalives_due_five (start t0 t1 t2 t3 t4 : Q) :
  (0 <= t0 - start < 2)%Q →
  (1 <= t1 - t0 < 2)%Q → (1 <= t2 - t1 < 2)%Q →
  (1 <= t3 - t2 < 2)%Q → (1 <= t4 - t3 < 2)%Q →
  keepalives_due start [t0; t1; t2; t3; t4] = 2%nat.
Proof.
  intros H0 H1 H2 H3 H4. unfold keepalives_due, KEEPALIVE_INTERVAL.
  repeat match goal with
         | |- context [Qle_bool ?a ?b] =>
             let E := fresh "E" in
             destruct (Qle_bool a b) eqn:E;
             [apply Qle_bool_iff in E
             | apply not_true_iff_false in E; rewrite Qle_bool_iff in E]
         end;
    try reflexivity; exfalso; lra.
Qed.

(** C2 (as the code has it): on a pass where no sensor matches, nothing is
    written unless at least [KEEPALIVE_INTERVAL] has passed since the last
    keepalive; when it has, one report is written and the timer is set to
    the current time.  The report encodes 0 degrees Celsius in the unit of
    the display: value 0, and value 32 when the unit is "f".  With a pass
    every second and an interval of 2 s, five passes without a match write
    exactly two keepalives. *)
Theorem keepalive_when_unmatched (env : HidEnv) (sensor_substring unit : string)
    (w : World) (h : Handle) :
  device (self w) = Some h →
  keepalive_report unit =
    _build_display_report (if is_fahrenheit unit then 32 else 0) ∧
  (∀ (refresh_rate last_keepalive : Q) (tk : Tick),
     unmatched sensor_substring tk →
     ∃ (last_keepalive' : Q) (w' : World),
       loop_iteration env sensor_substring unit refresh_rate last_keepalive tk w =
         (inr last_keepalive', w') ∧
       ((tick_time tk - last_keepalive < KEEPALIVE_INTERVAL)%Q →
          last_keepalive' = last_keepalive ∧
          writes (trace w') = writes (trace w)) ∧
       ((KEEPALIVE_INTERVAL <= tick_time tk - last_keepalive)%Q →
          last_keepalive' = tick_time tk ∧
          writes (trace w') = writes (trace w) ++ [keepalive_report unit])) ∧
  (∀ (start_time : Q) (k0 k1 k2 k3 k4 : Tick),
     Forall (unmatched sensor_substring) [k0; k1; k2; k3; k4] →
     (0 <= tick_time k0 - start_time < 2)%Q →
     (1 <= tick_time k1 - tick_time k0 < 2)%Q →
     (1 <= tick_time k2 - tick_time k1 < 2)%Q →
     (1 <= tick_time k3 - tick_time k2 < 2)%Q →
     (1 <= tick_time k4 - tick_time k3 < 2)%Q →
     ∃ w',
       run_display_loop env sensor_substring unit DEFAULT_REFRESH_RATE
         start_time [k0; k1; k2; k3; k4] w = (inr tt, w') ∧
       writes (trace w') =
         writes (trace w) ++ [keepalive_report unit; keepalive_report unit]).
Proof.
  intros Hdev.
  split; [unfold keepalive_report; by rewrite display_value_zero |].
  split.
  - intros refresh_rate last_keepalive tk Hun.
    destruct (loop_iteration_unmatched env sensor_substring unit refresh_rate
                last_keepalive tk w h Hun Hdev) as (lk' & w' & Hrun & _ & Hcase).
    exists lk', w'. split; [exact Hrun |].
    destruct (Qle_bool KEEPALIVE_INTERVAL (tick_time tk - last_keepalive)) eqn:E.
    + apply Qle_bool_iff in E. split; [intros Hlt; exfalso; lra | done].
    + apply not_true_iff_false in E. rewrite Qle_bool_iff in E.
      split; [done | intros Hle; exfalso; by apply E].
  - intros start_time k0 k1 k2 k3 k4 Hun H0 H1 H2 H3 H4.
    unfold run_display_loop. unfold mbind at 1. unfold M_bind at 1.
    unfold print at 1. unfold emit at 1.
    set (w0 := {| self := self w;
                  trace := trace w ++
                    [EvPrint (MsgStarting unit DEFAULT_REFRESH_RATE)] |}).
    destruct (loop_ticks_unmatched env sensor_substring unit
                DEFAULT_REFRESH_RATE h _ Hun start_time w0 Hdev)
      as (w' & Hrun & _ & Hwr).
    exists w'. split; [exact Hrun |]. rewrite Hwr.
    cbn [map]. rewrite (keepalives_due_five _ _ _ _ _ _ H0 H1 H2 H3 H4).
    subst w0. cbn [trace]. rewrite writes_app. simpl. by rewrite app_nil_r.
Qed.

Lemma keepalive_when_unmatched_witness :
  let env := {| open_path_result := λ _ _, None;
                write_result := λ _ _ _, inr 64;
                close_result := λ _ _, None |} in
  let w := {| self := connected_to 1 "hidraw3"; trace := [] |} in
  let pass (t : Q) := {| tick_sensors := []; tick_time := t |} in
  ∃ w',
    run_display_loop env "k10temp" "c" DEFAULT_REFRESH_RATE 0
      [pass 0%Q; pass 1%Q; pass 2%Q; pass 3%Q; pass 4%Q] w = (inr tt, w') ∧
    writes (trace w') = [_build_display_report 0; _build_display_report 0].
Proof.
  intros env w pass.
  destruct (keepalive_when_unmatched env "k10temp" "c" w
              {| handle_path := "hidraw3" |} eq_refl) as (_ & _ & Hfive).
  apply (Hfive 0%Q (pass 0%Q) (pass 1%Q) (pass 2%Q) (pass 3%Q) (pass 4%Q)).
  - repeat constructor.
  - simpl. split; [discriminate | reflexivity].
  - simpl. split; [discriminate | reflexivity].
  - simpl. split; [discriminate | reflexivity].
  - simpl. split; [discriminate | reflexivity].
  - simpl. split; [discriminate | reflexivity].
Defined.

(** C2 as stated fails for the unit "f": the keepalive written when the
    interval has passed encodes 32, not 0. *)
Lemma keepalive_value_counterexample :
  let env := {| open_path_result := λ _ _, None;
                write_result := λ _ _ _, inr 64;
                close_result := λ _ _, None |} in
  let w := {| self := connected_to 1 "hidraw3"; trace := [] |} in
  let tk := {| tick_sensors := []; tick_time := 2 |} in
  unmatched "k10temp" tk ∧
  (KEEPALIVE_INTERVAL <= tick_time tk - 0)%Q ∧
  writes (trace (loop_iteration env "k10temp" "f" 1 0 tk w).2) =
    [_build_display_report 32] ∧
  _build_display_report 32 ≠ _build_display_report 0.
Proof.
  cbv zeta. split; [reflexivity |]. split; [discriminate |].
  split; [by vm_compute | by vm_compute].
Qed.

(** * Further properties of the driver *)

(** ** The codec on all integers *)

(** X1: two values give the same report exactly when they clamp to the
    same value of [0, 999]; in particular distinct displayable values have
    distinct reports. *)
Theorem build_display_report_injective (v1 v2 : Z) :
  _build_display_report v1 = _build_display_report v2 ↔
  clamp999 v1 = clamp999 v2.
Proof.
  rewrite !build_report_shape. split.
  - intros H. injection H as Hh Ht Ho.
    destruct (digits_recompose _ (clamp999_range v1)) as (_ & _ & _ & H1).
    destruct (digits_recompose _ (clamp999_range v2)) as (_ & _ & _ & H2).
    rewrite <- H1, <- H2, Hh, Ht, Ho. reflexivity.
  - intros ->. reflexivity.
Qed.

(** X2: for every integer, in range or not, the report has 64 bytes and
    each of them is a valid byte value, so that building the [bytearray]
    cannot fail. *)
Theorem build_display_report_valid_bytes (v : Z) :
  length (_build_display_report v) = REPORT_LENGTH ∧
  Forall is_byte (_build_display_report v).
Proof.
  rewrite build_report_shape. split; [reflexivity |].
  destruct (digits_recompose _ (clamp999_range v)) as (Hh & Ht & Ho & _).
  unfold is_byte, REPORT_ID.
  do 6 (apply Forall_cons; split; [lia |]).
  apply Forall_replicate. lia.
Qed.

(** ** Writes on an open connection *)

Lemma blank_display_open (env : HidEnv) (w : World) (h : Handle) :
  device (self w) = Some h →
  let r := write_result env (trace w) (handle_path h) empty_report in
  let tr := trace w ++ [EvWrite (handle_path h) empty_report r] in
  blank_display env w =
    match r with
    | inr written =>
        if written <=? 0
        then (inr false,
              {| self := self w;
                 trace := tr ++ [EvPrint (MsgErrorBlanking (WriteReturned written))] |})
        else (inr true, {| self := self w; trace := tr |})
    | inl e =>
        (inr false,
         {| self := self w; trace := tr ++ [EvPrint (MsgErrorBlanking e)] |})
    end.
Proof.
  intros Hdev. cbv zeta.
  unfold blank_display, mbind, M_bind, get_self. rewrite Hdev.
  unfold try_except, hid_write. cbn [self trace].
  destruct (write_result env (trace w) (handle_path h) empty_report)
    as [e|written]; [reflexivity |].
  destruct (written <=? 0); reflexivity.
Qed.

(** X3: on an open connection [blank_display] writes exactly one report,
    the one whose only non-zero byte is the report identifier, and returns
    [True] exactly when the write returned a positive count; that report
    is none of the reports that show a value. *)
Theorem blank_display_writes_blank (env : HidEnv) (w : World) (h : Handle) :
  device (self w) = Some h →
  ∃ (b : bool) (w' : World),
    blank_display env w = (inr b, w') ∧
    writes (trace w') = writes (trace w) ++ [0x07 :: replicate 63 0] ∧
    (b = true ↔
       ∃ n, write_result env (trace w) (handle_path h) empty_report = inr n ∧
            0 < n) ∧
    (∀ v, _build_display_report v ≠ 0x07 :: replicate 63 0).
Proof.
  intros Hdev. rewrite (blank_display_open env w h Hdev). cbv zeta.
  assert (Hne : ∀ v, _build_display_report v ≠ 0x07 :: replicate 63 0).
  { intros v. rewrite build_report_shape. discriminate. }
  destruct (write_result env (trace w) (handle_path h) empty_report) as [e|n].
  - eexists false, _. split; [reflexivity |]. cbn [trace].
    rewrite !writes_app. simpl. rewrite ?app_nil_r.
    split; [done |]. split; [| done].
    split; [done | intros (n & Hn & _); discriminate].
  - destruct (n <=? 0) eqn:Hn.
    + apply Z.leb_le in Hn.
      eexists false, _. split; [reflexivity |]. cbn [trace].
      rewrite !writes_app. simpl. rewrite ?app_nil_r.
      split; [done |]. split; [| done].
      split; [done | intros (n' & [= <-] & Hpos); lia].
    + apply Z.leb_gt in Hn.
      eexists true, _. split; [reflexivity |]. cbn [trace].
      rewrite !writes_app. simpl. rewrite ?app_nil_r.
      split; [done |]. split; [| done].
      split; [intros _; by exists n | done].
Qed.

Lemma blank_display_writes_blank_witness :
  let env := {| open_path_result := λ _ _, None;
                write_result := λ _ _ _, inr 64;
                close_result := λ _ _, None |} in
  let w := {| self := connected_to 1 "hidraw3"; trace := [] |} in
  ∃ (b : bool) (w' : World),
    blank_display env w = (inr b, w') ∧
    writes (trace w') = [0x07 :: replicate 63 0].
Proof.
  intros env w.
  destruct (blank_display_writes_blank env w {| handle_path := "hidraw3" |}
              eq_refl) as (b & w' & Hrun & Hwr & _).
  exists b, w'. exact (conj Hrun Hwr).
Defined.

(** ** The value shown *)

Lemma py_round_floor (x : Q) : Qfloor x <= py_round x <= Qfloor x + 1.
Proof.
  unfold py_round.
  destruct (Qcompare (x - inject_Z (Qfloor x)) (1 # 2));
    [destruct (Z.even (Qfloor x)) | |]; lia.
Qed.

Lemma py_round_mono (x y : Q) : (x <= y)%Q → py_round x <= py_round y.
Proof.
  intros Hxy. pose proof (Qfloor_resp_le x y Hxy) as Hf.
  destruct (decide (Qfloor x = Qfloor y)) as [Heq|Hne].
  - unfold py_round. rewrite <- Heq.
    destruct (Qcompare (x - inject_Z (Qfloor x)) (1 # 2)) eqn:Hx;
      destruct (Qcompare (y - inject_Z (Qfloor x)) (1 # 2)) eqn:Hy;
      try (destruct (Z.even (Qfloor x))); try lia; exfalso;
      first [apply Qeq_alt in Hx | apply Qlt_alt in Hx | apply Qgt_alt in Hx];
      first [apply Qeq_alt in Hy | apply Qlt_alt in Hy | apply Qgt_alt in Hy];
      lra.
  - pose proof (py_round_floor x). pose proof (py_round_floor y). lia.
Qed.

(** ** More on the candidate list *)

Lemma insert_desc_filter_score (s : Z * Z) (x : DeviceInfo) (l : list DeviceInfo) :
  filter (λ d, score d = s) (insert_desc x l) =
  filter (λ d, score d = s) (x :: l).
Proof.
  induction l as [|y l IH]; [done |].
  cbn [insert_desc]. destruct (tuple_ltb (score x) (score y)) eqn:Hlt; [| done].
  rewrite filter_cons, IH, !filter_cons.
  apply tuple_ltb_spec in Hlt.
  destruct (decide (score y = s)) as [Hy|Hy], (decide (score x = s)) as [Hx|Hx];
    try done.
  exfalso. rewrite Hx, Hy in Hlt. lia.
Qed.

(** X7: the ordering is stable: candidates with the same score (such as
    two entries with the same interface number on vendor usage pages) keep
    the order in which they were enumerated. *)
Theorem sorted_candidates_stable (devices : list DeviceInfo) (s : Z * Z) :
  filter (λ d, score d = s) (_sorted_candidates devices) =
  filter (λ d, score d = s) devices.
Proof.
  induction devices as [|d l IH]; [done |].
  cbn [_sorted_candidates foldr]. rewrite insert_desc_filter_score.
  rewrite !filter_cons. fold (_sorted_candidates l). by rewrite IH.
Qed.

Lemma dict_set_fresh {V} (k : Key) (v : V) (m : list (Key * V)) :
  k ∉ map fst m → dict_set k v m = m ++ [(k, v)].
Proof.
  induction m as [|[k' v'] m IH]; cbn [dict_set map fst app]; [done |].
  rewrite not_elem_of_cons. intros [Hne Hin].
  rewrite decide_False by done. by rewrite IH.
Qed.

Lemma unique_fold_distinct (l : list DeviceInfo) :
  ∀ acc : list (Key * DeviceInfo),
  Forall (λ d, is_Some (device_key d)) l →
  NoDup (map fst acc ++ omap device_key l) →
  map snd (fold_left unique_step l acc) = map snd acc ++ l.
Proof.
  induction l as [|d l IH]; intros acc Hall Hnd; cbn [fold_left].
  - by rewrite app_nil_r.
  - apply Forall_cons in Hall as [[k Hk] Hall].
    change (omap device_key (d :: l))
      with (match device_key d with
            | Some k' => k' :: omap device_key l
            | None => omap device_key l
            end) in Hnd.
    rewrite Hk in Hnd.
    unfold unique_step at 2. rewrite Hk.
    assert (Hfresh : k ∉ map fst acc).
    { apply NoDup_app in Hnd as (_ & Hdisj & _). intros Hin.
      apply (Hdisj k Hin). left. }
    rewrite (dict_set_fresh k d acc Hfresh).
    rewrite IH; [by rewrite map_app, <- app_assoc | done |].
    rewrite map_app. cbn [map fst]. by rewrite <- app_assoc.
Qed.

Lemma unique_devices_keys (devices : list DeviceInfo) :
  map device_key (_unique_devices devices) =
  map Some (first_keys (omap device_key devices)).
Proof.
  unfold _unique_devices.
  destruct (unique_fold_inv devices) as [Hk Hv].
  set (m := fold_left unique_step devices []) in *.
  rewrite <- Hk, !map_map. apply map_ext_in.
  intros [k d] Hin%list_elem_of_In. simpl. by destruct (Hv k d Hin).
Qed.

Lemma omap_of_Some {A B} (f : A → option B) (l : list A) (ks : list B) :
  map f l = map Some ks → omap f l = ks.
Proof.
  revert ks. induction l as [|a l IH]; intros [|k ks] H; try done.
  cbn in H. injection H as Ha Hl.
  change (omap f (a :: l))
    with (match f a with Some y => y :: omap f l | None => omap f l end).
  by rewrite Ha, (IH ks).
Qed.

Lemma unique_devices_distinct (devices : list DeviceInfo) :
  NoDup (omap device_key (_unique_devices devices)).
Proof.
  rewrite (omap_of_Some _ _ _ (unique_devices_keys devices)).
  apply NoDup_first_keys.
Qed.

Lemma unique_devices_subseteq (devices : list DeviceInfo) :
  _unique_devices devices ⊆ devices.
Proof.
  intros d Hd. unfold _unique_devices in Hd.
  apply list_elem_of_fmap in Hd as ([k d'] & -> & Hin).
  destruct (unique_fold_inv devices) as [_ Hv].
  destruct (Hv k d' Hin) as (_ & pre & post & -> & _).
  apply elem_of_app. right. left.
Qed.

(** X8: deduplicating changes nothing on a list whose entries all have
    both parts of the key and pairwise distinct keys; so deduplicating
    twice is the same as once.  Every entry returned was enumerated. *)
Theorem unique_devices_idempotent (devices : list DeviceInfo) :
  (Forall (λ d, is_Some (device_key d)) devices →
   NoDup (omap device_key devices) →
   _unique_devices devices = devices) ∧
  _unique_devices (_unique_devices devices) = _unique_devices devices ∧
  _unique_devices devices ⊆ devices.
Proof.
  assert (Hfix : ∀ l, Forall (λ d, is_Some (device_key d)) l →
                      NoDup (omap device_key l) → _unique_devices l = l).
  { intros l Hall Hnd. unfold _unique_devices.
    by rewrite (unique_fold_distinct l [] Hall Hnd). }
  split; [apply Hfix |]. split; [| apply unique_devices_subseteq].
  apply Hfix; [| apply unique_devices_distinct].
  apply Forall_forall. intros d Hd. by eapply unique_devices_addressable.
Qed.

(** X9: the candidates that [open] tries were all enumerated, all have an
    interface number and a path, and no two of them share the pair
    (interface number, path): no interface is tried twice. *)
Theorem open_candidates_distinct (devices : list DeviceInfo) :
  let candidates := _sorted_candidates (_unique_devices devices) in
  candidates ⊆ devices ∧
  Forall (λ d, is_Some (device_key d)) candidates ∧
  NoDup (omap device_key candidates) ∧
  (length candidates <= length devices)%nat.
Proof.
  intros candidates. subst candidates.
  pose proof (sorted_candidates_perm (_unique_devices devices)) as Hp.
  split.
  { intros d Hd. rewrite Hp in Hd. by apply unique_devices_subseteq. }
  split.
  { rewrite Hp. apply Forall_forall. intros d Hd.
    by eapply unique_devices_addressable. }
  split.
  { rewrite Hp. apply unique_devices_distinct. }
  rewrite Hp.
  rewrite <- (length_map device_key), unique_devices_keys, length_map.
  transitivity (length (omap device_key devices)).
  - generalize (omap device_key devices). intros ks.
    induction ks as [|k ks IH]; cbn [first_keys length]; [done |].
    pose proof (length_filter (λ k', k' ≠ k) (first_keys ks)). lia.
  - clear Hp. induction devices as [|d l IH]; [done |].
    change (omap device_key (d :: l))
      with (match device_key d with
            | Some k' => k' :: omap device_key l
            | None => omap device_key l
            end).
    destruct (device_key d); cbn [length]; lia.
Qed.

(** ** Handles opened and closed *)

Lemma hid_opens_app (tr1 tr2 : list Event) :
  hid_opens (tr1 ++ tr2) = hid_opens tr1 ++ hid_opens tr2.
Proof. apply omap_app. Qed.

Lemma hid_closes_app (tr1 tr2 : list Event) :
  hid_closes (tr1 ++ tr2) = hid_closes tr1 ++ hid_closes tr2.
Proof. apply omap_app. Qed.

Lemma sleeps_app (tr1 tr2 : list Event) :
  sleeps (tr1 ++ tr2) = sleeps tr1 ++ sleeps tr2.
Proof. apply omap_app. Qed.

Ltac events :=
  rewrite ?hid_opens_app, ?hid_closes_app, ?sleeps_app, ?writes_app;
  cbn [hid_opens hid_closes sleeps writes omap list_omap app];
  rewrite ?app_nil_r.

Lemma failed_attempt_events (p : string) (evs : list Event) (e : Exn) :
  failed_attempt p evs e →
  hid_opens evs = [p] ∧ hid_closes evs = [p] ∧ sleeps evs = [] ∧
  Forall (λ r, r = probe) (writes evs).
Proof.
  destruct 1; repeat split; try reflexivity; cbn; repeat constructor.
Qed.

Lemma all_failed_events (env : HidEnv) tr cands evs e0 e1 :
  all_failed env tr cands evs e0 e1 →
  hid_opens evs = hid_closes evs ∧ sleeps evs = [] ∧
  Forall (λ r, r = probe) (writes evs).
Proof.
  induction 1 as [| tr d i p rest evs e evs' e0 e1 Hi Hp Hnv Hfa Hall IH
                  | tr d rest evs e0 e1 Hk Hall IH].
  - repeat split; constructor.
  - destruct (failed_attempt_events p evs e Hfa) as (Ho & Hc & Hs & Hw).
    destruct IH as (IHo & IHs & IHw).
    rewrite hid_opens_app, hid_closes_app, sleeps_app, writes_app.
    rewrite Ho, Hc, Hs, IHo, IHs.
    split; [done |]. split; [done |]. by apply Forall_app.
  - exact IH.
Qed.

(** What [open] does to the handles, for any enumeration. *)
Lemma open_events (env : HidEnv) (devices : list DeviceInfo) (w : World) :
  ∃ (b : bool) (w' : World) (evs : list Event),
    open env devices w = (inr b, w') ∧
    trace w' = trace w ++ evs ∧
    sleeps evs = [] ∧
    Forall (λ r, r = probe) (writes evs) ∧
    if b then ∃ i p, self w' = connected_to i p ∧
                     hid_opens evs = hid_closes evs ++ [p]
    else self w' = self w ∧ hid_opens evs = hid_closes evs.
Proof.
  destruct devices as [|d0 ds].
  { eexists false, _, _. split; [apply open_empty |]. cbn [self trace].
    split; [reflexivity |]. repeat split; constructor. }
  destruct (open_candidates_spec env
              (_sorted_candidates (_unique_devices (d0 :: ds))) None w)
    as (b & w' & Hrun & Hres).
  destruct b.
  - destruct Hres as (failed & d & rest & i & p & evs & e1 & n & _ & _ & _ &
                      Hall & _ & Htr & Hself).
    destruct (all_failed_events _ _ _ _ _ _ Hall) as (Ho & Hs & Hw).
    eexists true, w', _. split; [exact Hrun |]. split; [exact Htr |].
    events. rewrite Hs. split; [done |].
    split; [apply Forall_app; split; [done | repeat constructor] |].
    exists i, p. by rewrite Ho.
  - destruct Hres as (evs & e1 & Hall & Htr & Hself).
    destruct (all_failed_events _ _ _ _ _ _ Hall) as (Ho & Hs & Hw).
    eexists false, w', _. split; [exact Hrun |]. split; [exact Htr |].
    unfold no_working_messages.
    destruct e1; events; rewrite Hs; repeat split; done.
Qed.

(** X10: [open] never leaves a handle behind: every handle it opened it
    closed again, except the one it is bound to when it succeeds; it
    writes nothing but the value-0 report, and does not touch the
    controller when it fails. *)
Theorem open_leaves_no_handle (env : HidEnv) (devices : list DeviceInfo)
    (w : World) :
  ∃ (b : bool) (w' : World) (evs : list Event),
    open env devices w = (inr b, w') ∧
    trace w' = trace w ++ evs ∧
    Forall (λ r, r = _build_display_report 0) (writes evs) ∧
    if b then ∃ i p, self w' = connected_to i p ∧
                     hid_opens evs = hid_closes evs ++ [p]
    else self w' = self w ∧ hid_opens evs = hid_closes evs.
Proof.
  destruct (open_events env devices w) as (b & w' & evs & H1 & H2 & _ & H3 & H4).
  by exists b, w', evs.
Qed.

Lemma close_events (env : HidEnv) (w : World) :
  ∃ (w' : World) (evs : list Event),
    close env w = (inr tt, w') ∧
    trace w' = trace w ++ evs ∧
    hid_opens evs = [] ∧ writes evs = [] ∧ sleeps evs = [] ∧
    match device (self w) with
    | Some h => self w' = __init__ ∧ hid_closes evs = [handle_path h]
    | None => w' = w ∧ evs = []
    end.
Proof.
  destruct (device (self w)) as [h|] eqn:Hdev.
  - destruct (close_open env w h Hdev) as (evs & Hrun & c & ->).
    eexists _, _. split; [exact Hrun |]. cbn [self trace].
    split; [reflexivity |]. by destruct c.
  - exists w, []. split; [by apply close_closed |].
    by rewrite app_nil_r.
Qed.

(** X11: [close] never raises, also when [device.close()] does; it calls
    [close] once on the bound handle and makes no other call of the HID
    layer; and closing a second time does nothing at all. *)
Theorem close_once (env : HidEnv) (w : World) :
  ∃ (w' : World) (evs : list Event),
    close env w = (inr tt, w') ∧
    trace w' = trace w ++ evs ∧
    hid_opens evs = [] ∧ writes evs = [] ∧
    hid_closes evs = match device (self w) with
                     | Some h => [handle_path h]
                     | None => []
                     end ∧
    close env w' = (inr tt, w').
Proof.
  destruct (close_events env w) as (w' & evs & Hrun & Htr & Ho & Hw & _ & Hc).
  exists w', evs. split; [done |]. split; [done |]. split; [done |].
  split; [done |].
  destruct (device (self w)) as [h|] eqn:Hdev.
  - destruct Hc as [Hself Hc]. split; [done |].
    apply close_closed. by rewrite Hself.
  - destruct Hc as [-> ->]. split; [done |]. by apply close_closed.
Qed.

(** ** The display loop on any passes *)

Lemma send_temperature_events (env : HidEnv) (temp_celsius : Q) (unit : string)
    (w : World) :
  ∃ (b : bool) (w' : World) (evs : list Event),
    send_temperature env temp_celsius unit w = (inr b, w') ∧
    self w' = self w ∧ trace w' = trace w ++ evs ∧
    hid_opens evs = [] ∧ hid_closes evs = [] ∧ sleeps evs = [] ∧
    match device (self w) with
    | Some _ => writes evs = [_build_display_report (display_value temp_celsius unit)]
    | None => writes evs = []
    end.
Proof.
  destruct (device (self w)) as [h|] eqn:Hdev.
  - rewrite (send_temperature_open env temp_celsius unit w h Hdev). cbv zeta.
    destruct (write_result env (trace w) (handle_path h) _) as [e|n];
      [| destruct (n <=? 0)];
      eexists _, _, _; (split; [reflexivity |]); cbn [self trace];
      (split; [reflexivity |]); rewrite <- ?app_assoc;
      (split; [reflexivity |]); done.
  - unfold send_temperature, mbind, M_bind, get_self. rewrite Hdev.
    eexists _, _, _. split; [reflexivity |]. cbn [self trace]. done.
Qed.

Lemma loop_iteration_events (env : HidEnv) (sensor_substring unit : string)
    (refresh_rate last_keepalive : Q) (tk : Tick) (w : World) :
  ∃ (last_keepalive' : Q) (w' : World) (evs : list Event),
    loop_iteration env sensor_substring unit refresh_rate last_keepalive tk w =
      (inr last_keepalive', w') ∧
    self w' = self w ∧ trace w' = trace w ++ evs ∧
    hid_opens evs = [] ∧ hid_closes evs = [] ∧
    sleeps evs = [refresh_rate] ∧
    (length (writes evs) <= 1)%nat ∧
    (device (self w) = None → writes evs = []) ∧
    (∀ name temp_celsius,
       matched sensor_substring tk name temp_celsius →
       last_keepalive' = last_keepalive).
Proof.
  unfold loop_iteration, try_except, matched.
  destruct (find_sensor_by_substring (tick_sensors tk) sensor_substring)
    as [[name t]|].
  - unfold mbind at 1. unfold M_bind at 1.
    unfold mbind at 1. unfold M_bind at 1.
    destruct (send_temperature_events env t unit w)
      as (b & w1 & evs & Hrun & Hself & Htr & Ho & Hc & Hs & Hw).
    rewrite Hrun.
    assert (Hlen : (length (writes evs) <= 1)%nat ∧
                   (device (self w) = None → writes evs = [])).
    { destruct (device (self w)); rewrite Hw; repeat split; try done; cbn; lia. }
    destruct Hlen as (Hlen & Hnone).
    destruct b; eexists _, _, _; (split; [reflexivity |]); cbn [self trace];
      rewrite Htr, <- !app_assoc;
      (split; [done |]); (split; [reflexivity |]); events;
      rewrite ?Ho, ?Hc, ?Hs;
      (split; [done |]); (split; [done |]); (split; [done |]);
      (split; [done |]); (split; [done |]);
      by intros name' t' [= <- <-].
  - unfold mbind at 1. unfold M_bind at 1.
    unfold mbind at 1. unfold M_bind at 1.
    unfold print at 1. unfold emit at 1.
    set (w1 := {| self := self w;
                  trace := trace w ++ [EvPrint (MsgSensorNotFound sensor_substring)] |}).
    destruct (Qle_bool KEEPALIVE_INTERVAL (tick_time tk - last_keepalive)).
    + destruct (send_temperature_events env 0 unit w1)
        as (b & w2 & evs & Hrun & Hself & Htr & Ho & Hc & Hs & Hw).
      unfold mbind at 1. unfold M_bind at 1. rewrite Hrun.
      assert (Hlen : (length (writes evs) <= 1)%nat ∧
                     (device (self w) = None → writes evs = [])).
      { subst w1. cbn [self] in Hw.
        destruct (device (self w)); rewrite Hw; repeat split; try done; cbn; lia. }
      destruct Hlen as (Hlen & Hnone).
      eexists _, _, _. split; [reflexivity |]. cbn [self trace].
      rewrite Htr. subst w1. cbn [self trace]. rewrite <- ?app_assoc.
      split; [by rewrite Hself |]. split; [reflexivity |]. events.
      rewrite ?Ho, ?Hc, ?Hs.
      do 5 (split; [done |]). intros ? ? [=].
    + eexists _, _, _. split; [reflexivity |]. subst w1. cbn [self trace].
      rewrite <- ?app_assoc.
      split; [done |]. split; [reflexivity |]. events.
      do 3 (split; [done |]). split; [cbn; lia |]. split; [done |].
      intros ? ? [=].
Qed.

Lemma loop_ticks_events (env : HidEnv) (sensor_substring unit : string)
    (refresh_rate : Q) (ticks : list Tick) :
  ∀ (last_keepalive : Q) (w : World),
  ∃ (w' : World) (evs : list Event),
    loop_ticks env sensor_substring unit refresh_rate last_keepalive ticks w =
      (inr tt, w') ∧
    self w' = self w ∧ trace w' = trace w ++ evs ∧
    hid_opens evs = [] ∧ hid_closes evs = [] ∧
    sleeps evs = replicate (length ticks) refresh_rate ∧
    (length (writes evs) <= length ticks)%nat ∧
    (device (self w) = None → writes evs = []).
Proof.
  induction ticks as [|tk rest IH]; intros last_keepalive w.
  - eexists _, _. split; [reflexivity |]. cbn [self trace]. done.
  - destruct (loop_iteration_events env sensor_substring unit refresh_rate
                last_keepalive tk w)
      as (lk' & w1 & evs1 & Hrun & Hself & Htr & Ho & Hc & Hs & Hlen & Hnone & _).
    cbn [loop_ticks]. unfold mbind at 1. unfold M_bind at 1. rewrite Hrun.
    destruct (IH lk' w1)
      as (w' & evs2 & Hrun' & Hself' & Htr' & Ho' & Hc' & Hs' & Hlen' & Hnone').
    exists w', (evs1 ++ evs2). split; [exact Hrun' |].
    split; [by rewrite Hself', Hself |].
    split; [by rewrite Htr', Htr, <- app_assoc |].
    rewrite hid_opens_app, hid_closes_app, sleeps_app, writes_app.
    rewrite Ho, Hc, Hs, Ho', Hc', Hs', length_app.
    split; [done |]. split; [done |]. split; [done |].
    split; [cbn [length]; lia |].
    intros Hdev. rewrite (Hnone Hdev), Hnone'; [done |]. by rewrite Hself.
Qed.

Lemma run_display_loop_events (env : HidEnv) (sensor_substring unit : string)
    (refresh_rate start_time : Q) (ticks : list Tick) (w : World) :
  ∃ (w' : World) (evs : list Event),
    run_display_loop env sensor_substring unit refresh_rate start_time ticks w =
      (inr tt, w') ∧
    self w' = self w ∧ trace w' = trace w ++ evs ∧
    hid_opens evs = [] ∧ hid_closes evs = [] ∧
    sleeps evs = replicate (length ticks) refresh_rate ∧
    (length (writes evs) <= length ticks)%nat ∧
    (device (self w) = None → writes evs = []).
Proof.
  unfold run_display_loop. unfold mbind at 1. unfold M_bind at 1.
  unfold print at 1. unfold emit at 1.
  set (w0 := {| self := self w;
                trace := trace w ++ [EvPrint (MsgStarting unit refresh_rate)] |}).
  destruct (loop_ticks_events env sensor_substring unit refresh_rate ticks
              start_time w0)
    as (w' & evs & Hrun & Hself & Htr & Ho & Hc & Hs & Hlen & Hnone).
  eexists w', _. split; [exact Hrun |]. split; [done |].
  rewrite Htr. subst w0. cbn [self trace] in *. rewrite <- app_assoc.
  split; [reflexivity |]. events. done.
Qed.



(** X13: on a controller that is not connected the loop writes nothing
    to any device, whatever the sensors say. *)
Theorem run_display_loop_not_connected (env : HidEnv)
    (sensor_substring unit : string) (refresh_rate start_time : Q)
    (ticks : list Tick) (w : World) :
  device (self w) = None →
  ∃ w',
    run_display_loop env sensor_substring unit refresh_rate start_time ticks w =
      (inr tt, w') ∧
    writes (trace w') = writes (trace w).
Proof.
  intros Hdev.
  destruct (run_display_loop_events env sensor_substring unit refresh_rate
              start_time ticks w)
    as (w' & evs & Hrun & _ & Htr & _ & _ & _ & _ & Hnone).
  exists w'. split; [exact Hrun |].
  by rewrite Htr, writes_app, (Hnone Hdev), app_nil_r.
Qed.

Lemma run_display_loop_not_connected_witness :
  let env := {| open_path_result := λ _ _, None;
                write_result := λ _ _ _, inr 64;
                close_result := λ _ _, None |} in
  let tk := {| tick_sensors := [("k10temp"%string, [{| label := "Tctl"; current := 45 |}])];
               tick_time := 5 |} in
  ∃ w',
    run_display_loop env "k10temp" "c" 1 0 [tk; tk]
      {| self := __init__; trace := [] |} = (inr tt, w') ∧
    writes (trace w') = [].
Proof.
  intros env tk.
  apply (run_display_loop_not_connected env "k10temp" "c" 1 0 [tk; tk]
           {| self := __init__; trace := [] |} eq_refl).
Defined.



(** ** Pacing of the keepalives in general *)





(** ** The context manager *)

(** X16: [with OcypusController() as controller] never leaves a handle
    open.  For a body that leaves the fields of the controller alone and
    neither opens nor closes a handle itself, whether it returns or
    raises: afterwards the controller is closed, every handle opened was
    closed, in the same order, and the result or the exception of the body
    is passed on. *)
Theorem with_controller_releases_device {A} (env : HidEnv)
    (devices : list DeviceInfo) (body : M A) (w : World) :
  let entered := (open env devices (fresh w)).2 in
  self (body entered).2 = self entered →
  (∃ evs, trace (body entered).2 = trace entered ++ evs ∧
          hid_opens evs = [] ∧ hid_closes evs = []) →
  ∃ (w' : World) (evs : list Event),
    with_controller env devices body w = ((body entered).1, w') ∧
    self w' = __init__ ∧
    trace w' = trace w ++ evs ∧
    hid_opens evs = hid_closes evs.
Proof.
  intros entered Hself (evs2 & Htr2 & Ho2 & Hc2).
  unfold with_controller, __enter__.
  unfold mbind at 1. unfold M_bind at 1. unfold set_self at 1.
  fold (fresh w).
  unfold mbind at 1. unfold M_bind at 1.
  unfold mbind at 1. unfold M_bind at 1.
  destruct (open_events env devices (fresh w))
    as (b & w1 & evs1 & Hopen & Htr1 & Hs1 & Hw1 & Hb).
  subst entered. rewrite Hopen in *. cbn [fst snd] in *.
  unfold mret at 1. unfold M_ret at 1.
  unfold body_then_exit, __exit__.
  destruct (body w1) as [r w2] eqn:Hbody. cbn [fst snd] in *.
  destruct (close_events env w2)
    as (w3 & evs3 & Hclose & Htr3 & Ho3 & Hw3 & Hs3 & Hc3).
  rewrite Hclose. rewrite Hself in Hc3. cbn [fresh self trace] in *.
  destruct b.
  - destruct Hb as (i & p & Hself1 & Hbal).
    rewrite Hself1 in Hc3. cbn [connected_to device handle_path] in Hc3.
    destruct Hc3 as [Hself3 Hc3].
    exists w3, (evs1 ++ evs2 ++ evs3). split; [reflexivity |].
    split; [done |].
    split; [by rewrite Htr3, Htr2, Htr1, <- !app_assoc |].
    rewrite !hid_opens_app, !hid_closes_app.
    by rewrite Hbal, Ho2, Hc2, Ho3, Hc3, !app_nil_r.
  - destruct Hb as [Hself1 Hbal].
    rewrite Hself1 in Hc3. cbn [__init__ device] in Hc3.
    destruct Hc3 as [-> ->].
    exists w2, (evs1 ++ evs2). split; [reflexivity |].
    split; [by rewrite Hself, Hself1 |].
    split; [by rewrite Htr2, Htr1, <- app_assoc |].
    rewrite !hid_opens_app, !hid_closes_app.
    by rewrite Hbal, Ho2, Hc2.
Qed.

Lemma with_controller_releases_device_witness :
  let env := {| open_path_result := λ _ _, None;
                write_result := λ _ _ _, inr 64;
                close_result := λ _ _, None |} in
  let vendor := {| info_interface_number := Some 1; info_path := Some "hidraw4"%string;
                   usage_page := Some 0xFF01; usage := Some 1 |} in
  ∃ (w' : World) (evs : list Event),
    with_controller env [vendor] (blank_display env)
      {| self := __init__; trace := [] |} = (inr true, w') ∧
    self w' = __init__ ∧
    trace w' = evs ∧
    hid_opens evs = hid_closes evs.
Proof.
  intros env vendor.
  apply (with_controller_releases_device env [vendor] (blank_display env)
           {| self := __init__; trace := [] |}).
  - reflexivity.
  - eexists. split; [reflexivity |]. split; reflexivity.
Defined.

(** ** More on the sensor lookup *)

Lemma str_contains_empty (s : string) : str_contains "" s = true.
Proof. by destruct s. Qed.

(** X17: with an empty substring every name matches: the lookup returns
    the first group that has a reading, and [None] when no group has
    one. *)
Theorem find_sensor_empty_substring (sensors : Sensors) :
  find_sensor_by_substring sensors "" =
    match filter (λ g, g.2 ≠ []) sensors with
    | (name, first :: _) :: _ => Some (name, current first)
    | _ => None
    end.
Proof.
  induction sensors as [|[name rs] rest IH]; [done |].
  rewrite find_sensor_cons, filter_cons.
  change (lower "") with ""%string. rewrite str_contains_empty.
  destruct rs as [|first others]; cbn [snd].
  - rewrite decide_False by (intros H; by apply H). exact IH.
  - by rewrite decide_True by done.
Qed.

Lemma find_sensor_some_inv (sensors : Sensors) (substring name : string) (v : Q) :
  find_sensor_by_substring sensors substring = Some (name, v) →
  ∃ skipped first others later,
    sensors = skipped ++ (name, first :: others) :: later ∧
    str_contains (lower substring) (lower name) = true ∧
    v = current first.
Proof.
  induction sensors as [|[n rs] rest IH]; [done |].
  rewrite find_sensor_cons. intros Hfind.
  assert (Hrest : find_sensor_by_substring rest substring = Some (name, v) →
                  ∃ skipped first others later,
                    (n, rs) :: rest = skipped ++ (name, first :: others) :: later ∧
                    str_contains (lower substring) (lower name) = true ∧
                    v = current first).
  { intros H. destruct (IH H) as (skipped & first & others & later & -> & Hc & Hv).
    by exists ((n, rs) :: skipped), first, others, later. }
  destruct rs as [|first others]; [by apply Hrest |].
  destruct (str_contains (lower substring) (lower n)) eqn:Hc; [| by apply Hrest].
  injection Hfind as <- <-. by exists [], first, others, rest.
Qed.

(** ** The debugging report *)

Lemma string_app_assoc (a b c : string) : (a +:+ b) +:+ c = a +:+ b +:+ c.
Proof.
  induction a as [|x a IH]; [done |].
  change (String x ((a +:+ b) +:+ c) = String x (a +:+ b +:+ c)).
  by rewrite IH.
Qed.

Lemma string_app_nil_r (a : string) : a +:+ "" = a.
Proof.
  induction a as [|x a IH]; [done |].
  change (String x (a +:+ "") = String x a). by rewrite IH.
Qed.

Lemma join_lines_cons (l : string) (rest : list string) :
  ∃ after, join_lines (l :: rest) = l +:+ after ∧
           (after = ""%string ∨ ∃ more, after = newline +:+ more).
Proof.
  destruct rest as [|l' rest].
  - exists ""%string. split; [by rewrite string_app_nil_r | by left].
  - eexists. split; [reflexivity |]. right. by eexists.
Qed.

Lemma join_lines_line (l0 : string) (pre : list string) (x : string)
    (post : list string) :
  ∃ before after,
    join_lines (l0 :: pre ++ x :: post) = before +:+ newline +:+ x +:+ after ∧
    (after = ""%string ∨ ∃ more, after = newline +:+ more).
Proof.
  revert l0. induction pre as [|a pre IH]; intros l0.
  - destruct (join_lines_cons x post) as (after & Hx & Hafter).
    exists l0, after. split; [| done]. cbn [app join_lines] in *. by rewrite Hx.
  - destruct (IH a) as (before & after & Hrec & Hafter).
    exists (l0 +:+ newline +:+ before), after. split; [| done].
    change (join_lines (l0 :: (a :: pre) ++ x :: post))
      with (l0 +:+ newline +:+ join_lines (a :: pre ++ x :: post)).
    by rewrite Hrec, !string_app_assoc.
Qed.

(** X18: the reading the display loop would show appears in the debugging
    report as a line of its own, marked as selected: the text of the line
    comes right after a newline and is followed by the end of the report
    or by a newline. *)
Theorem temperature_report_marks_selected (format_1f : Q → string)
    (sensors : Sensors) (sensor_substring name : string) (v : Q) :
  find_sensor_by_substring sensors sensor_substring = Some (name, v) →
  ∃ before after,
    build_temperature_report format_1f sensors sensor_substring =
      before +:+ newline +:+
      ("  " +:+ name +:+ ": " +:+ (format_1f v +:+ "°C") +:+ " ← SELECTED")
      +:+ after ∧
    (after = ""%string ∨ ∃ more, after = newline +:+ more).
Proof.
  intros Hfind.
  destruct (find_sensor_some_inv _ _ _ _ Hfind)
    as (skipped & first & others & later & -> & Hc & ->).
  assert (Hlines : ∃ pre post,
            report_lines format_1f
              (skipped ++ (name, first :: others) :: later) sensor_substring =
            "Available temperature sensors:"%string ::
            pre ++ report_line format_1f sensor_substring name first :: post).
  { unfold report_lines. rewrite flat_map_app. cbn [flat_map fst snd map].
    by exists (flat_map (λ group, map (report_line format_1f sensor_substring group.1)
                                   group.2) skipped),
      (map (report_line format_1f sensor_substring name) others ++
       flat_map (λ group, map (report_line format_1f sensor_substring group.1)
                            group.2) later). }
  destruct Hlines as (pre & post & Hlines).
  unfold build_temperature_report.
  destruct (skipped ++ (name, first :: others) :: later) eqn:Hs.
  { by destruct skipped. }
  rewrite Hlines.
  destruct (join_lines_line "Available temperature sensors:" pre
              (report_line format_1f sensor_substring name first) post)
    as (before & after & Hjoin & Hafter).
  exists before, after. split; [| done].
  rewrite Hjoin. unfold report_line. by rewrite Hc.
Qed.

Lemma temperature_report_marks_selected_witness :
  let format_1f := λ _ : Q, "45.0"%string in
  let sensors : Sensors :=
    [("acpitz"%string, [{| label := ""; current := 30 |}]);
     ("k10temp"%string, [{| label := "Tctl"; current := 45 |};
                         {| label := "Tccd1"; current := 41 |}])] in
  ∃ before after,
    build_temperature_report format_1f sensors "K10" =
      before +:+ newline +:+
      ("  " +:+ "k10temp" +:+ ": " +:+ ("45.0" +:+ "°C") +:+ " ← SELECTED")
      +:+ after ∧
    (after = ""%string ∨ ∃ more, after = newline +:+ more).
Proof.
  intros format_1f sensors.
  apply (temperature_report_marks_selected format_1f sensors "K10" "k10temp" 45
           eq_refl).
Defined.

(** X19: the debugging report says "No temperature sensors found." for an
    empty mapping only; a mapping whose groups all lack readings gives the
    heading and no line. *)
Theorem temperature_report_without_readings (format_1f : Q → string)
    (sensors : Sensors) (sensor_substring : string) :
  (build_temperature_report format_1f sensors sensor_substring =
     "No temperature sensors found."%string ↔ sensors = []) ∧
  (sensors ≠ [] → Forall (λ g, g.2 = []) sensors →
   build_temperature_report format_1f sensors sensor_substring =
     "Available temperature sensors:"%string).
Proof.
  split.
  - split; [| by intros ->].
    destruct sensors as [|g rest]; [done |].
    unfold build_temperature_report, report_lines.
    destruct (join_lines_cons "Available temperature sensors:"
                (flat_map (λ group, map (report_line format_1f sensor_substring group.1)
                                      group.2) (g :: rest))) as (after & -> & _).
    discriminate.
  - intros Hne Hall. destruct sensors as [|g rest]; [done |].
    unfold build_temperature_report, report_lines.
    assert (Hflat : ∀ l : Sensors, Forall (λ g, g.2 = []) l →
              flat_map (λ group, map (report_line format_1f sensor_substring group.1)
                                   group.2) l = []).
    { induction 1 as [|g' rest' Hg Hrest IH]; [done |].
      cbn [flat_map]. rewrite Hg. cbn [map app]. apply IH. }
    by rewrite (Hflat _ Hall).
Qed.

(** * The conversion in double precision *)

Section Binary64Properties.
Import PrimFloat SpecFloat FloatOps.

Lemma binary64_display_value_finite (temp_celsius : float) (unit : string) (q : Q) :
  Binary64.float_value (Binary64.display_temp temp_celsius unit) = Some q →
  Binary64.display_value temp_celsius unit =
    inr (Z.max 0 (Z.min 212 (py_round q))).
Proof.
  intros Hq. unfold Binary64.display_value, Binary64.int_round. by rewrite Hq.
Qed.

Lemma binary64_display_value_not_finite (temp_celsius : float) (unit : string) :
  Binary64.float_value (Binary64.display_temp temp_celsius unit) = None →
  ∃ e, Binary64.display_value temp_celsius unit = inl e ∧
       (e = ValueError "cannot convert float NaN to integer" ∨
        e = OverflowError "cannot convert float infinity to integer").
Proof.
  intros Hq. unfold Binary64.display_value, Binary64.int_round. rewrite Hq.
  destruct (is_nan _); eexists; (split; [reflexivity |]); auto.
Qed.

(** [send_temperature] on an open connection: the conversion decides
    whether anything is sent at all. *)
Lemma binary64_send_temperature_open (env : HidEnv) (temp_celsius : float)
    (unit : string) (w : World) (h : Handle) :
  device (self w) = Some h →
  Binary64.send_temperature env temp_celsius unit w =
    match Binary64.display_value temp_celsius unit with
    | inl e => (inl e, w)
    | inr value_int =>
        let report := _build_display_report value_int in
        let r := write_result env (trace w) (handle_path h) report in
        let tr := trace w ++ [EvWrite (handle_path h) report r] in
        match r with
        | inr written =>
            if written <=? 0
            then (inr false,
                  {| self := self w;
                     trace := tr ++ [EvPrint (MsgErrorSending (WriteReturned written))] |})
            else (inr true, {| self := self w; trace := tr |})
        | inl e =>
            (inr false,
             {| self := self w; trace := tr ++ [EvPrint (MsgErrorSending e)] |})
        end
    end.
Proof.
  intros Hdev.
  unfold Binary64.send_temperature, mbind, M_bind, get_self. rewrite Hdev.
  destruct (Binary64.display_value temp_celsius unit) as [e|v]; [reflexivity |].
  cbv zeta. unfold try_except, hid_write. cbn [self trace].
  destruct (write_result env (trace w) (handle_path h) (_build_display_report v))
    as [e|written]; [reflexivity |].
  destruct (written <=? 0); reflexivity.
Qed.

(** The conversion of 45.833333333333336 degrees is exactly 114.5 in
    double precision, which rounds to the even 114. *)
Example conversion_rounds_in_binary64 :
  Binary64.float_value (Binary64.display_temp Binary64.reading_45_83 "f")
    = Some (1 * inject_Z 8057221208342528 * 2 ^ (-46))%Q ∧
  (1 * inject_Z 8057221208342528 * 2 ^ (-46) == 229 # 2)%Q ∧
  Binary64.display_value Binary64.reading_45_83 "f" = inr 114.
Proof. split; [by vm_compute |]. split; by vm_compute. Qed.

(** C4 (as the code has it): on an open connection the temperature shown
    is [celsius * 9 / 5 + 32], computed in double precision, when the unit
    is "f" (compared in lower case), and [celsius] unchanged otherwise.
    When it is finite it is rounded to the nearest integer, a tie to the
    even one, and clamped to [0, 212] before it is encoded and written: 0
    degrees in "f" encodes 32, 100 degrees 212, anything above 212 encodes
    212 and anything below 0 encodes 0.  When it is an infinity or NaN,
    [send_temperature] raises before it writes anything. *)
Theorem send_temperature_encodes_binary64 (env : HidEnv) (temp_celsius : float)
    (unit : string) (w : World) (h : Handle) :
  device (self w) = Some h →
  let shown := Binary64.display_temp temp_celsius unit in
  (is_fahrenheit unit = true ↔ unit = "f"%string ∨ unit = "F"%string) ∧
  (is_fahrenheit unit = true → shown = (temp_celsius * 9 / 5 + 32)%float) ∧
  (is_fahrenheit unit = false → shown = temp_celsius) ∧
  (∀ q : Q, Binary64.float_value shown = Some q →
     let value := Z.max 0 (Z.min 212 (py_round q)) in
     (q - (1 # 2) <= inject_Z (py_round q) <= q + (1 # 2))%Q ∧
     0 <= value <= 212 ∧
     ((212 < q)%Q → value = 212) ∧
     ((q < 0)%Q → value = 0) ∧
     ∃ (b : bool) (w' : World),
       Binary64.send_temperature env temp_celsius unit w = (inr b, w') ∧
       writes (trace w') = writes (trace w) ++ [_build_display_report value]) ∧
  (Binary64.float_value shown = None →
     ∃ e, Binary64.send_temperature env temp_celsius unit w = (inl e, w)) ∧
  Binary64.display_value 0 "f" = inr 32 ∧
  Binary64.display_value 100 "f" = inr 212.
Proof.
  intros Hdev shown.
  split; [apply is_fahrenheit_spec |].
  split; [intros Hf; subst shown; unfold Binary64.display_temp; by rewrite Hf |].
  split; [intros Hf; subst shown; unfold Binary64.display_temp; by rewrite Hf |].
  split.
  { intros q Hq value.
    split; [apply py_round_nearest |].
    split; [subst value; lia |].
    split; [intros Hbig; pose proof (py_round_above q 212 Hbig); subst value; lia |].
    split; [intros Hneg; pose proof (py_round_below q 0 Hneg); subst value; lia |].
    rewrite (binary64_send_temperature_open env temp_celsius unit w h Hdev).
    rewrite (binary64_display_value_finite temp_celsius unit q Hq). cbv zeta.
    fold value.
    destruct (write_result env (trace w) (handle_path h) _) as [e|written];
      [| destruct (written <=? 0)];
      eexists _, _; (split; [reflexivity |]); cbn [trace];
      rewrite ?writes_app; simpl; by rewrite ?app_nil_r. }
  split.
  { intros Hq.
    destruct (binary64_display_value_not_finite temp_celsius unit Hq)
      as (e & He & _).
    exists e.
    by rewrite (binary64_send_temperature_open env temp_celsius unit w h Hdev), He. }
  split; by vm_compute.
Qed.

Lemma send_temperature_encodes_binary64_witness :
  let env := {| open_path_result := λ _ _, None;
                write_result := λ _ _ _, inr 64;
                close_result := λ _ _, None |} in
  let w := {| self := connected_to 1 "hidraw3"; trace := [] |} in
  ∃ (b : bool) (w' : World),
    Binary64.send_temperature env 45 "f" w = (inr b, w') ∧
    writes (trace w') = [_build_display_report 113].
Proof.
  intros env w.
  destruct (send_temperature_encodes_binary64 env 45 "f" w
              {| handle_path := "hidraw3" |} eq_refl)
    as (_ & _ & _ & Hfinite & _).
  destruct (Hfinite (7951668092076032 # 70368744177664)%Q
              ltac:(vm_compute; reflexivity))
    as (_ & _ & _ & _ & b & w' & Hrun & Hwrites).
  exists b, w'. split; [exact Hrun |]. exact Hwrites.
Defined.

(** C4 as stated fails when the conversion overflows: the reading 1e308
    with the unit "f" converts to infinity, which is above 212, and
    [send_temperature] raises [OverflowError] without writing, where the
    claim has 212 encoded. *)
Lemma send_temperature_overflow_counterexample :
  let env := {| open_path_result := λ _ _, None;
                write_result := λ _ _ _, inr 64;
                close_result := λ _ _, None |} in
  let w := {| self := connected_to 1 "hidraw3"; trace := [] |} in
  Binary64.display_temp Binary64.reading_1e308 "f" = infinity ∧
  Binary64.send_temperature env Binary64.reading_1e308 "f" w =
    (inl (OverflowError "cannot convert float infinity to integer"), w) ∧
  writes (trace (Binary64.send_temperature env Binary64.reading_1e308 "f" w).2)
    ≠ [_build_display_report 212].
Proof.
  cbv zeta. split; [by vm_compute |]. split; [by vm_compute |].
  vm_compute. discriminate.
Qed.

(** X4: on an open connection, when the temperature to show is finite
    [send_temperature] makes exactly one call of [write] and returns
    [True] exactly when it returned a positive count; when the write raised
    or returned 0 or less, the error is printed and the result is [False].
    When the temperature to show is an infinity or NaN, it raises
    [OverflowError] or [ValueError] to the caller, with no write and no
    message. *)
Theorem send_temperature_result_binary64 (env : HidEnv) (temp_celsius : float)
    (unit : string) (w : World) (h : Handle) :
  device (self w) = Some h →
  let shown := Binary64.display_temp temp_celsius unit in
  (∀ q : Q, Binary64.float_value shown = Some q →
     let report := _build_display_report (Z.max 0 (Z.min 212 (py_round q))) in
     let r := write_result env (trace w) (handle_path h) report in
     ∃ (b : bool) (w' : World),
       Binary64.send_temperature env temp_celsius unit w = (inr b, w') ∧
       (b = true ↔ ∃ n, r = inr n ∧ 0 < n) ∧
       (b = true →
          trace w' = trace w ++ [EvWrite (handle_path h) report r]) ∧
       (b = false →
          ∃ e, trace w' = trace w ++ [EvWrite (handle_path h) report r;
                                      EvPrint (MsgErrorSending e)] ∧
               (r = inl e ∨ ∃ n, r = inr n ∧ n <= 0 ∧ e = WriteReturned n))) ∧
  (Binary64.float_value shown = None →
     ∃ e, Binary64.send_temperature env temp_celsius unit w = (inl e, w) ∧
          (e = ValueError "cannot convert float NaN to integer" ∨
           e = OverflowError "cannot convert float infinity to integer")).
Proof.
  intros Hdev shown.
  rewrite (binary64_send_temperature_open env temp_celsius unit w h Hdev).
  split.
  - intros q Hq. cbv zeta.
    rewrite (binary64_display_value_finite temp_celsius unit q Hq). cbv zeta.
    destruct (write_result env (trace w) (handle_path h) _) as [e|n].
    + eexists false, _. split; [reflexivity |]. cbn [trace].
      split; [split; [done | intros (n & Hn & _); discriminate] |].
      split; [done |]. intros _. exists e.
      rewrite <- app_assoc. split; [done | by left].
    + destruct (n <=? 0) eqn:Hn.
      * apply Z.leb_le in Hn.
        eexists false, _. split; [reflexivity |]. cbn [trace].
        split; [split; [done | intros (n' & [= <-] & Hpos); lia] |].
        split; [done |]. intros _. exists (WriteReturned n).
        rewrite <- app_assoc. split; [done |]. right. by exists n.
      * apply Z.leb_gt in Hn.
        eexists true, _. split; [reflexivity |]. cbn [trace].
        split; [split; [intros _; by exists n | done] |].
        split; [done | done].
  - intros Hq.
    destruct (binary64_display_value_not_finite temp_celsius unit Hq)
      as (e & He & Hkind).
    exists e. by rewrite He.
Qed.

Lemma send_temperature_result_binary64_witness :
  let env := {| open_path_result := λ _ _, None;
                write_result := λ _ _ _, inr 0;
                close_result := λ _ _, None |} in
  let w := {| self := connected_to 1 "hidraw3"; trace := [] |} in
  ∃ w', Binary64.send_temperature env 45 "f" w = (inr false, w').
Proof.
  intros env w.
  destruct (send_temperature_result_binary64 env 45 "f" w
              {| handle_path := "hidraw3" |} eq_refl) as [Hfinite _].
  destruct (Hfinite (7951668092076032 # 70368744177664)%Q
              ltac:(vm_compute; reflexivity))
    as (b & w' & Hrun & Hb & _).
  destruct b.
  - exfalso. destruct Hb as [Hb _]. destruct (Hb eq_refl) as (n & Hn & Hpos).
    injection Hn as <-. lia.
  - exists w'. exact Hrun.
Defined.

(** X6: while the temperature to show, as double precision computes it,
    lies in [0, 212], the integer encoded is within one half of it: the
    clamp changes nothing there.  In Celsius the temperature to show is
    the reading itself. *)
Theorem display_value_accurate_binary64 (temp_celsius : float) (unit : string)
    (q : Q) :
  Binary64.float_value (Binary64.display_temp temp_celsius unit) = Some q →
  (0 <= q <= 212)%Q →
  (∃ v, Binary64.display_value temp_celsius unit = inr v ∧
        (q - (1 # 2) <= inject_Z v <= q + (1 # 2))%Q) ∧
  (is_fahrenheit unit = false →
   Binary64.display_temp temp_celsius unit = temp_celsius).
Proof.
  intros Hq [Hlo Hhi]. split.
  - exists (py_round q).
    pose proof (py_round_nearest q) as Hnear.
    assert (H0 : 0 <= py_round q).
    { apply (py_round_mono 0 q) in Hlo. by vm_compute in Hlo. }
    assert (H212 : py_round q <= 212).
    { apply (py_round_mono q 212) in Hhi. by vm_compute in Hhi. }
    split; [| done].
    rewrite (binary64_display_value_finite temp_celsius unit q Hq).
    f_equal. lia.
  - intros Hf. unfold Binary64.display_temp. by rewrite Hf.
Qed.

Lemma display_value_accurate_binary64_witness :
  ∃ v, Binary64.display_value Binary64.reading_45_83 "f" = inr v ∧
       ((8057221208342528 # 70368744177664) - (1 # 2) <= inject_Z v
          <= (8057221208342528 # 70368744177664) + (1 # 2))%Q.
Proof.
  destruct (display_value_accurate_binary64 Binary64.reading_45_83 "f"
              (8057221208342528 # 70368744177664)%Q
              ltac:(vm_compute; reflexivity)
              ltac:(split; discriminate)) as [(v & Hv & Hlo & Hhi) _].
  exists v. split; [exact Hv |].
  split; [exact Hlo | exact Hhi].
Defined.

End Binary64Properties.
